(** * lum.compat-modelapi.js: InitGroup and Extension

    A shallow embedding of the two classes of the repository,
    [InitGroup] (run-once initialiser groups) and [Extension] (method
    forwarding onto a parent Model), over a small model of the
    JavaScript object heap: objects with a prototype link and ordered
    own properties, dynamic [typeof], truthiness, [for-in] enumeration
    and calls that may return, throw or fail to terminate.

    Part I holds the definitions, Part II the properties. *)

From Stdlib Require Import ZArith String Ascii List Lia Sorted.
From Stdlib Require Import DecimalString DecimalN.
From stdpp Require Import base option list strings.
Import ListNotations.
Local Open Scope string_scope.

(* ================================================================== *)
(** * Part I. Definitions *)
(* ================================================================== *)

(** ** The JavaScript substrate

    What the two classes use of the language, and no more. Properties
    are data properties that can be written (no accessors, no frozen
    objects); property keys are strings; a function object is either a
    host function or a forwarder closure. *)
Module JS.

(** Heap addresses of objects. *)
Definition loc := nat.

(** JavaScript values. Numbers are the integer-valued ones in the safe
    range; the library only tests them with [typeof] and truthiness and
    otherwise passes them through. *)
Inductive value :=
  | VUndef
  | VNull
  | VBool (b : bool)
  | VNum (n : Z)
  | VStr (s : string)
  | VObj (l : loc).

#[global] Instance value_eq_dec : EqDecision value.
Proof. solve_decision. Defined.

(** Code of a function object. [CUser fid] is a function written by
    the host application, whose behaviour the realm supplies.
    [CForwarder ext srcName applyThis] is the closure created by
    [Extension.addHandledMethod]: it captures the variables [ext],
    [srcName] and [applyThis] of extension.js lines 67-72. *)
Inductive code :=
  | CUser (fid : nat)
  | CForwarder (ext : loc) (srcName : value) (applyThis : value).

Inductive kind :=
  | KObject
  | KArray
  | KFunction (c : code).

(** A data property: its value and its [[Enumerable]] attribute. *)
Record prop := { p_val : value; p_enum : bool }.

(** An object: prototype link, kind, and own properties in creation
    order (the order matters for [for-in]). *)
Record object := {
  o_proto : option loc;
  o_kind : kind;
  o_props : list (string * prop) }.

(** The heap: objects are allocated at the end and never freed. *)
Definition heap := list object.

(** What the program does that an observer can see besides the heap:
    activations of host functions and lines written by
    [console.error]. *)
Inductive event :=
  | ECall (f : loc) (this : value) (args : list value)
  | EConsoleError (args : list value).

Record state := { st_heap : heap; st_trace : list event }.

(** Exceptions. [Error msg] is [new Error(msg)], [TypeError] the
    engine's own, [Thrown v] whatever a host function throws. *)
Inductive exn :=
  | Error (msg : string)
  | TypeError
  | Thrown (v : value).

(** Result of running code: normal completion, an exception, or no
    result at all (unbounded recursion through forwarders). *)
Inductive outcome (A : Type) :=
  | Ret (a : A)
  | Throw (e : exn)
  | Diverge.
Arguments Ret {A} a.
Arguments Throw {A} e.
Arguments Diverge {A}.

(** What lies outside the repository. [user_call] is the behaviour of
    host functions (initialisers, extension methods, setup hooks): any
    transformation of the heap with any outcome. [prim_get] and
    [prim_keys] are property reads and enumeration on the primitives
    boolean, number and string (their wrapper prototypes);
    [obj_to_string] is the key that an object denotes when used as a
    property name. [Object_prototype] and [Function_prototype] are the
    built-in prototypes, and [Model_prototype] is [Model.prototype] of
    './model', which is not among the sources. *)
Record realm := {
  user_call : nat -> value -> list value -> heap -> outcome value * heap;
  prim_get : heap -> value -> string -> value;
  prim_keys : heap -> value -> list string;
  obj_to_string : heap -> loc -> string;
  Object_prototype : loc;
  Function_prototype : loc;
  Model_prototype : loc }.

(** *** A state-and-exception monad *)
Definition M (A : Type) := state -> outcome A * state.

Definition ret {A} (a : A) : M A := fun st => (Ret a, st).
Definition throw {A} (e : exn) : M A := fun st => (Throw e, st).
Definition bind {A B} (m : M A) (k : A -> M B) : M B :=
  fun st =>
    match m st with
    | (Ret a, st') => k a st'
    | (Throw e, st') => (Throw e, st')
    | (Diverge, st') => (Diverge, st')
    end.

Declare Scope js_scope.
Delimit Scope js_scope with js.
Notation "x <- m ;; k" := (bind m (fun x => k))
  (at level 100, m at next level, right associativity) : js_scope.
Notation "m ;;; k" := (bind m (fun _ => k))
  (at level 100, right associativity) : js_scope.
Local Open Scope js_scope.

(** Read-only access to the heap, and heap updates. *)
Definition read {A} (f : heap -> A) : M A := fun st => (Ret (f (st_heap st)), st).
Definition modify (f : heap -> heap) : M unit :=
  fun st => (Ret tt, {| st_heap := f (st_heap st); st_trace := st_trace st |}).
Definition emit (e : event) : M unit :=
  fun st => (Ret tt, {| st_heap := st_heap st; st_trace := st_trace st ++ [e] |}).

(** [console.error(...)] *)
Definition console_error (args : list value) : M unit := emit (EConsoleError args).

(** *** Own properties *)
Fixpoint lookup_prop (k : string) (ps : list (string * prop)) : option prop :=
  match ps with
  | [] => None
  | (k', p) :: ps' => if String.eqb k k' then Some p else lookup_prop k ps'
  end.

(** Assignment to an own data property: an existing property keeps its
    place and its attributes, a new one is created enumerable at the
    end. *)
Fixpoint assign_prop (k : string) (v : value) (ps : list (string * prop))
  : list (string * prop) :=
  match ps with
  | [] => [(k, {| p_val := v; p_enum := true |})]
  | (k', p) :: ps' =>
      if String.eqb k k' then (k', {| p_val := v; p_enum := p_enum p |}) :: ps'
      else (k', p) :: assign_prop k v ps'
  end.

Definition set_own (h : heap) (l : loc) (k : string) (v : value) : heap :=
  match h !! l with
  | Some o =>
      <[l := {| o_proto := o_proto o; o_kind := o_kind o;
                o_props := assign_prop k v (o_props o) |}]> h
  | None => h
  end.

(** *** Property lookup along the prototype chain *)
Fixpoint get_fuel (n : nat) (h : heap) (l : loc) (k : string) : value :=
  match n with
  | O => VUndef
  | S n' =>
      match h !! l with
      | None => VUndef
      | Some o =>
          match lookup_prop k (o_props o) with
          | Some p => p_val p
          | None =>
              match o_proto o with
              | Some l' => get_fuel n' h l' k
              | None => VUndef
              end
          end
      end
  end.

(** A prototype chain is acyclic, so it is no longer than the heap. *)
Definition get (h : heap) (l : loc) (k : string) : value :=
  get_fuel (S (length h)) h l k.

(** The value of an own property, if the object has it. *)
Definition own (h : heap) (l : loc) (k : string) : option value :=
  match h !! l with
  | Some o => p_val <$> lookup_prop k (o_props o)
  | None => None
  end.

(** [k in o] *)
Fixpoint has_fuel (n : nat) (h : heap) (l : loc) (k : string) : bool :=
  match n with
  | O => false
  | S n' =>
      match h !! l with
      | None => false
      | Some o =>
          match lookup_prop k (o_props o) with
          | Some _ => true
          | None =>
              match o_proto o with
              | Some l' => has_fuel n' h l' k
              | None => false
              end
          end
      end
  end.

Definition has_property (h : heap) (l : loc) (k : string) : bool :=
  has_fuel (S (length h)) h l k.

(** *** Dynamic typing *)
Definition callable (h : heap) (v : value) : bool :=
  match v with
  | VObj l =>
      match h !! l with
      | Some {| o_kind := KFunction _ |} => true
      | _ => false
      end
  | _ => false
  end.

Definition code_of (h : heap) (l : loc) : option code :=
  match h !! l with
  | Some {| o_kind := KFunction c |} => Some c
  | _ => None
  end.

(** The type names of [core.types] in @lumjs/core. *)
Module types.
Definition F := "function".
Definition O := "object".
Definition S := "string".
Definition B := "boolean".
End types.

Definition typeof (h : heap) (v : value) : string :=
  match v with
  | VUndef => "undefined"
  | VNull => "object"
  | VBool _ => "boolean"
  | VNum _ => "number"
  | VStr _ => "string"
  | VObj _ => if callable h v then "function" else "object"
  end.

(** ToBoolean *)
Definition truthy (v : value) : bool :=
  match v with
  | VUndef | VNull => false
  | VBool b => b
  | VNum n => negb (Z.eqb n 0)
  | VStr s => negb (String.eqb s "")
  | VObj _ => true
  end.

(** [v === undefined] *)
Definition is_undefined (v : value) : bool :=
  match v with VUndef => true | _ => false end.

(** [Array.isArray(v)] *)
Definition isArray (h : heap) (v : value) : bool :=
  match v with
  | VObj l =>
      match h !! l with
      | Some {| o_kind := KArray |} => true
      | _ => false
      end
  | _ => false
  end.

(** [v instanceof C], where [target] is [C.prototype]: the prototype
    chain of [v] is searched, starting above [v] itself. *)
Fixpoint proto_reaches (n : nat) (h : heap) (l target : loc) : bool :=
  match n with
  | O => false
  | Datatypes.S n' =>
      match h !! l with
      | None => false
      | Some o =>
          match o_proto o with
          | None => false
          | Some p => if Nat.eqb p target then true else proto_reaches n' h p target
          end
      end
  end.

Definition instanceof (h : heap) (v : value) (target : loc) : bool :=
  match v with
  | VObj l => proto_reaches (Datatypes.S (length h)) h l target
  | _ => false
  end.

(** ToString, which is also ToPropertyKey on these values. *)
Definition to_string (R : realm) (h : heap) (v : value) : string :=
  match v with
  | VUndef => "undefined"
  | VNull => "null"
  | VBool true => "true"
  | VBool false => "false"
  | VNum n => NilZero.string_of_int (Z.to_int n)
  | VStr s => s
  | VObj l => obj_to_string R h l
  end.

(** *** Member access on arbitrary values *)

(** [v[k]]: a read on [undefined] or [null] raises a TypeError. *)
Definition get_member (R : realm) (v : value) (k : string) : M value :=
  match v with
  | VObj l => read (fun h => get h l k)
  | VUndef | VNull => throw TypeError
  | _ => read (fun h => prim_get R h v k)
  end.

(** [v[k] = x] in strict mode (class bodies are strict): only objects
    can be written to. *)
Definition set_member (v : value) (k : string) (x : value) : M unit :=
  match v with
  | VObj l => modify (fun h => set_own h l k x)
  | _ => throw TypeError
  end.

(** Allocation of a new object. *)
Definition alloc (o : object) : M loc :=
  fun st => (Ret (length (st_heap st)),
             {| st_heap := (st_heap st ++ [o])%list; st_trace := st_trace st |}).

(** *** Property enumeration *)

(** A key is an array index when it is the canonical decimal form of
    an integer below 2^32 - 1. *)
Definition array_index (s : string) : option N :=
  match NilZero.uint_of_string s with
  | Some d =>
      let n := N.of_uint d in
      if String.eqb (NilZero.string_of_uint (N.to_uint n)) s
         && (n <? 4294967295)%N
      then Some n else None
  | None => None
  end.

Fixpoint insert_index (x : N * string) (l : list (N * string)) : list (N * string) :=
  match l with
  | [] => [x]
  | y :: l' => if (fst x <=? fst y)%N then x :: l else y :: insert_index x l'
  end.

Definition sort_index (l : list (N * string)) : list (N * string) :=
  fold_right insert_index [] l.

Definition index_le (x y : N * string) : Prop := (fst x <= fst y)%N.

Definition index_keys (ps : list (string * prop)) : list (N * string) :=
  omap (fun kp => match array_index (fst kp) with
                  | Some n => Some (n, fst kp)
                  | None => None
                  end) ps.

Definition is_name (k : string) : bool :=
  match array_index k with Some _ => false | None => true end.

Definition name_keys (ps : list (string * prop)) : list string :=
  List.filter is_name (map fst ps).

(** OrdinaryOwnPropertyKeys: array indices in ascending numeric order,
    then the other keys in creation order. *)
Definition own_keys (ps : list (string * prop)) : list string :=
  map snd (sort_index (index_keys ps)) ++ name_keys ps.

Definition mem (k : string) (ks : list string) : bool := existsb (String.eqb k) ks.

Definition enumerable (k : string) (ps : list (string * prop)) : bool :=
  match lookup_prop k ps with Some p => p_enum p | None => false end.

(** EnumerateObjectProperties: the enumerable own keys, then those of
    the prototype chain that no nearer object defines. *)
Fixpoint enum_fuel (n : nat) (h : heap) (l : loc) (visited : list string) : list string :=
  match n with
  | O => []
  | Datatypes.S n' =>
      match h !! l with
      | None => []
      | Some o =>
          let own := own_keys (o_props o) in
          List.filter (fun k => enumerable k (o_props o) && negb (mem k visited)) own
          ++ match o_proto o with
             | Some l' => enum_fuel n' h l' (visited ++ own)
             | None => []
             end
      end
  end.

Definition enum_keys (R : realm) (h : heap) (v : value) : list string :=
  match v with
  | VObj l => enum_fuel (Datatypes.S (length h)) h l []
  | VUndef | VNull => []
  | _ => prim_keys R h v
  end.

Definition still_has (h : heap) (v : value) (k : string) : bool :=
  match v with
  | VObj l => has_property h l k
  | _ => true
  end.

Fixpoint for_each (ks : list string) (body : string -> M unit) : M unit :=
  match ks with
  | [] => ret tt
  | k :: ks' => body k ;;; for_each ks' body
  end.

(** [for (k in v) body]: the keys are collected when the loop starts; a
    key whose property has been deleted before its turn is skipped. *)
Definition for_in {A} (R : realm) (v : value) (body : string -> M A) : M unit :=
  ks <- read (fun h => enum_keys R h v) ;;
  for_each ks (fun k =>
    present <- read (fun h => still_has h v k) ;;
    if present then body k ;;; ret tt else ret tt).

(** *** Calls *)

(** The body of the closure of extension.js lines 69-72,
    [function () { ext[srcName].apply(applyThis, arguments); }],
    with [apply] being [Function.prototype.apply]. It has no [return]
    statement. [call_rec] is the call of the target. *)
Definition forwarder_body (R : realm)
    (call_rec : value -> value -> list value -> M value)
    (ext : loc) (srcName applyThis : value) (arguments : list value) : M value :=
  key <- read (fun h => to_string R h srcName) ;;
  target <- get_member R (VObj ext) key ;;
  is_fn <- read (fun h => callable h target) ;;
  if is_fn : bool
  then call_rec target applyThis arguments ;;; ret VUndef
  else throw TypeError.

(** [f.call(this, ...args)]. A host function is recorded in the trace
    and run by the realm; a forwarder runs its body, [fuel] bounding the
    depth of forwarders that call forwarders. *)
Fixpoint call (R : realm) (fuel : nat) (f this : value) (args : list value) : M value :=
  fun st =>
    match f with
    | VObj l =>
        match code_of (st_heap st) l with
        | Some (CUser fid) =>
            let (r, h') := user_call R fid this args (st_heap st) in
            (r, {| st_heap := h'; st_trace := st_trace st ++ [ECall l this args] |})
        | Some (CForwarder ext srcName applyThis) =>
            match fuel with
            | O => (Diverge, st)
            | Datatypes.S n =>
                forwarder_body R (call R n) ext srcName applyThis args st
            end
        | None => (Throw TypeError, st)
        end
    | _ => (Throw TypeError, st)
    end.

End JS.

(** ** InitGroup (src/unnamed/part_000) *)
Module InitGroup.
Import JS.
Local Open Scope js_scope.

Section WithRealm.
Variable R : realm.

(** [constructor(name, api=null)] *)
Definition constructor (this : loc) (name api : value) : M unit :=
  let api := if is_undefined api then VNull else api in
  set_member (VObj this) "api" api ;;;
  set_member (VObj this) "name" name ;;;
  methods <- alloc {| o_proto := Some (Object_prototype R);
                      o_kind := KObject; o_props := [] |} ;;
  set_member (VObj this) "methods" (VObj methods).

(** [add(name, method, apiIsThis=false)] *)
Definition add (this : loc) (name method apiIsThis : value) : M value :=
  let apiIsThis := if is_undefined apiIsThis then VBool false else apiIsThis in
  tn <- read (fun h => typeof h name) ;;
  tm <- read (fun h => typeof h method) ;;
  if String.eqb tn types.S && String.eqb tm types.F then
    key <- read (fun h => to_string R h name) ;;
    methods <- get_member R (VObj this) "methods" ;;
    existing <- get_member R methods key ;;
    if is_undefined existing then
      set_member method "_run_init" (VBool false) ;;;
      set_member method "_this_api" apiIsThis ;;;
      methods <- get_member R (VObj this) "methods" ;;
      set_member methods key method ;;;
      ret (VBool true)
    else
      console_error [VStr "cannot overwrite init method"; name; method; VObj this] ;;;
      ret (VBool false)
  else
    console_error [VStr "invalid init method"; name; method; VObj this] ;;;
    ret (VBool false).

(** [need(name, conf)] *)
Definition need (fuel : nat) (this : loc) (name conf : value) : M value :=
  key <- read (fun h => to_string R h name) ;;
  methods <- get_member R (VObj this) "methods" ;;
  meth <- get_member R methods key ;;
  tm <- read (fun h => typeof h meth) ;;
  if negb (String.eqb tm types.F) then
    console_error [VStr "invalid init method requested"; name; VObj this; conf] ;;;
    ret (VBool false)
  else
    run_init <- get_member R meth "_run_init" ;;
    if truthy run_init then ret (VBool true)
    else
      this_api <- get_member R meth "_this_api" ;;
      api <- get_member R (VObj this) "api" ;;
      let wantThis := if truthy this_api && truthy api then api else VObj this in
      ret_ <- call R fuel meth wantThis [conf] ;;
      set_member meth "_run_init" (VBool true) ;;;
      ret ret_.

(** [run(conf)] *)
Definition run (fuel : nat) (this : loc) (conf : value) : M value :=
  methods <- get_member R (VObj this) "methods" ;;
  for_in R methods (fun name => need fuel this (VStr name) conf) ;;;
  ret VUndef.

(** *** Vocabulary of the properties *)

(** [name] is registered in group [g] with function [f]: [g.methods]
    is the plain object [m], which has the own property [name],
    holding [f]. *)
Definition registered (h : heap) (g m : loc) (name : string) (f : loc) : Prop :=
  get h g "methods" = VObj m /\ code_of h m = None /\
  own h m name = Some (VObj f) /\ callable h (VObj f) = true.

(** [f] carries the mark that it has run. *)
Definition has_run (h : heap) (f : loc) : Prop :=
  truthy (get h f "_run_init") = true.

(** No host function invalidates [P]. *)
Definition keeps (P : heap -> Prop) : Prop :=
  forall fid this args h, P h -> P (snd (user_call R fid this args h)).

(** No host function modifies the objects [ls]. *)
Definition untouched (ls : list loc) : Prop :=
  forall fid this args h l, In l ls -> snd (user_call R fid this args h) !! l = h !! l.

(** Every host function returns normally, with whatever value. *)
Definition returns : Prop :=
  forall fid this args h, exists r, fst (user_call R fid this args h) = Ret r.

(** A client calling [need] again and again, whatever each call
    yields (an exception can be caught): the state it ends in. *)
Fixpoint needs (fuel : nat) (this : loc) (calls : list (value * value))
    (st : state) : state :=
  match calls with
  | [] => st
  | (name, conf) :: calls' => needs fuel this calls' (snd (need fuel this name conf st))
  end.

(** How often the function object [f] has been invoked. *)
Fixpoint invocations (f : loc) (tr : list event) : nat :=
  match tr with
  | [] => 0
  | ECall f' _ _ :: tr' => (if Nat.eqb f f' then 1 else 0) + invocations f tr'
  | EConsoleError _ :: tr' => invocations f tr'
  end.

(** An initialiser as the group holds it: its name, the function
    object, the host function behind it, its [_this_api] flag and its
    [_run_init] flag. *)
Record init := {
  i_name : string; i_fn : loc; i_fid : nat; i_bind : value; i_ran : bool }.

(** The entry of [i] in the methods object [m]. *)
Definition entry (h : heap) (m : loc) (i : init) : Prop :=
  own h m (i_name i) = Some (VObj (i_fn i)) /\
  code_of h (i_fn i) = Some (CUser (i_fid i)) /\
  own h (i_fn i) "_this_api" = Some (i_bind i) /\
  own h (i_fn i) "_run_init" = Some (VBool (i_ran i)).

Definition pending (i : init) : bool := negb (i_ran i).

(** The receiver [need] chooses for [i] in a group [g] with [api]. *)
Definition receiver (g : loc) (api : value) (i : init) : value :=
  if truthy (i_bind i) && truthy api then api else VObj g.

(** One turn of the loop of [run] over the methods object [m]. *)
Definition run_body (fuel : nat) (g m : loc) (conf : value) (k : string) : M unit :=
  present <- read (fun h => still_has h (VObj m) k) ;;
  if present then need fuel g (VStr k) conf ;;; ret tt else ret tt.

End WithRealm.

(** The functions that a trace shows invoked, in order. *)
Fixpoint invoked (tr : list event) : list value :=
  match tr with
  | [] => []
  | ECall f _ _ :: tr' => VObj f :: invoked tr'
  | EConsoleError _ :: tr' => invoked tr'
  end.

(** The values held by the methods object [m], in the order in which
    [add] has created its properties. *)
Definition registration_order (h : heap) (m : loc) : list value :=
  match h !! m with
  | Some o => map (fun kp => p_val (snd kp)) (o_props o)
  | None => []
  end.

End InitGroup.

(** ** Extension (src/lib/extension.js) *)
Module Extension.
Import JS.
Local Open Scope js_scope.

Section WithRealm.
Variable R : realm.

(** [constructor(apiInstance)]. [this] is the object that [new] has
    allocated for the concrete extension class. *)
Definition constructor (fuel : nat) (this : loc) (apiInstance : value) : M unit :=
  is_model <- read (fun h => instanceof h apiInstance (Model_prototype R)) ;;
  if negb is_model then
    throw (Error "Extension must be passed it's parent Model")
  else
    set_member (VObj this) "parent" apiInstance ;;;
    setup <- get_member R (VObj this) "setup" ;;
    ts <- read (fun h => typeof h setup) ;;
    if String.eqb ts types.F then
      setup <- get_member R (VObj this) "setup" ;;
      call R fuel setup (VObj this) [apiInstance] ;;;
      ret tt
    else ret tt.

(** [addHandledMethod(srcName, destName, modelIsThis, canReplace)].
    Of the function expression of lines 69-72 the heap holds the
    function object alone: its own [prototype] object and its [length]
    and [name] properties, which the code never reads, are left out. *)
Definition addHandledMethod (this : loc)
    (srcName destName modelIsThis canReplace : value) : M value :=
  let destName := if truthy destName then destName else srcName in
  srcKey <- read (fun h => to_string R h srcName) ;;
  src <- get_member R (VObj this) srcKey ;;
  ts <- read (fun h => typeof h src) ;;
  if String.eqb ts types.F then
    free <- (if truthy canReplace then ret true
             else
               parent <- get_member R (VObj this) "parent" ;;
               destKey <- read (fun h => to_string R h destName) ;;
               cur <- get_member R parent destKey ;;
               ret (is_undefined cur)) ;;
    if free : bool then
      let ext := this in
      applyThis <- (if truthy modelIsThis
                    then get_member R (VObj this) "parent"
                    else ret (VObj this)) ;;
      parent <- get_member R (VObj this) "parent" ;;
      destKey <- read (fun h => to_string R h destName) ;;
      closure <- alloc {| o_proto := Some (Function_prototype R);
                          o_kind := KFunction (CForwarder ext srcName applyThis);
                          o_props := [] |} ;;
      set_member parent destKey (VObj closure) ;;;
      ret VUndef
    else
      msg <- read (fun h => to_string R h destName) ;;
      throw (Error (msg ++ " was already defined in the Model"))
  else
    throw (Error (srcKey ++ " method not found in the Extension")).

(** [addHandledMethods(methodsToAdd)] *)
Definition addHandledMethods (this : loc) (methodsToAdd : value) : M value :=
  tm <- read (fun h => typeof h methodsToAdd) ;;
  if String.eqb tm types.O then
    is_arr <- read (fun h => isArray h methodsToAdd) ;;
    if is_arr : bool then
      for_in R methodsToAdd (fun m =>
        methodName <- get_member R methodsToAdd m ;;
        addHandledMethod this methodName VUndef VUndef VUndef) ;;;
      ret VUndef
    else
      for_in R methodsToAdd (fun srcName =>
        methSpec <- get_member R methodsToAdd srcName ;;
        ts <- read (fun h => typeof h methSpec) ;;
        if String.eqb ts types.S then
          addHandledMethod this (VStr srcName) methSpec VUndef VUndef
        else if String.eqb ts types.B then
          addHandledMethod this (VStr srcName) VNull methSpec VUndef
        else if String.eqb ts types.O then
          destName <- get_member R methSpec "destName" ;;
          modelIsThis <- get_member R methSpec "modelIsThis" ;;
          canReplace <- get_member R methSpec "canReplace" ;;
          addHandledMethod this (VStr srcName) destName modelIsThis canReplace
        else ret VUndef) ;;;
      ret VUndef
  else
    console_error [VStr "Non-object sent to addHandledMethods()"; methodsToAdd] ;;;
    ret VUndef.

(** *** Vocabulary of the properties *)

(** A completed call whose returned value is thrown away. *)
Definition discard (r : outcome value * state) : outcome value * state :=
  match r with
  | (Ret _, st) => (Ret VUndef, st)
  | other => other
  end.

(** How the loop of [addHandledMethods] over a keyed mapping reads one
    entry. *)
Definition mapping_entry (ext : loc) (methodsToAdd : value) (srcName : string) : M value :=
  methSpec <- get_member R methodsToAdd srcName ;;
  ts <- read (fun h => typeof h methSpec) ;;
  if String.eqb ts types.S then
    addHandledMethod ext (VStr srcName) methSpec VUndef VUndef
  else if String.eqb ts types.B then
    addHandledMethod ext (VStr srcName) VNull methSpec VUndef
  else if String.eqb ts types.O then
    destName <- get_member R methSpec "destName" ;;
    modelIsThis <- get_member R methSpec "modelIsThis" ;;
    canReplace <- get_member R methSpec "canReplace" ;;
    addHandledMethod ext (VStr srcName) destName modelIsThis canReplace
  else ret VUndef.

(** How the loop over an array reads one entry. *)
Definition array_entry (ext : loc) (methodsToAdd : value) (m : string) : M value :=
  methodName <- get_member R methodsToAdd m ;;
  addHandledMethod ext methodName VUndef VUndef VUndef.

End WithRealm.
End Extension.


(** ** A small world to run the code in *)
Module Example.
Import JS.
Local Open Scope js_scope.

(** Addresses. *)
Definition toString_fn : loc := 3.
Definition save_fn : loc := 4.
Definition group : loc := 5.
Definition init_f : loc := 6.
Definition init_g : loc := 7.
Definition model : loc := 8.
Definition ext_proto : loc := 9.
Definition foo_fn : loc := 10.
Definition setup_fn : loc := 11.
Definition ext : loc := 12.
Definition methods : loc := 13.

(** Host function 6 reports a failure: it sets [model.ready] and
    returns [false]. Every other host function returns its own number
    and changes nothing. *)
Definition R0 : realm := {|
  user_call := fun fid _ _ h =>
    if Nat.eqb fid 6 then (Ret (VBool false), set_own h model "ready" (VBool true))
    else (Ret (VNum (Z.of_nat fid)), h);
  prim_get := fun _ _ _ => VUndef;
  prim_keys := fun _ _ => [];
  obj_to_string := fun _ _ => "[object Object]";
  Object_prototype := 0;
  Function_prototype := 1;
  Model_prototype := 2 |}.

Definition obj (proto : option loc) (k : kind) (ps : list (string * prop)) : object :=
  {| o_proto := proto; o_kind := k; o_props := ps |}.
Definition method (v : value) : prop := {| p_val := v; p_enum := false |}.
Definition field (v : value) : prop := {| p_val := v; p_enum := true |}.
Definition fn (fid : nat) : object := obj (Some 1) (KFunction (CUser fid)) [].

(** The same world, except that host function 6 throws. *)
Definition R1 : realm := {|
  user_call := fun fid this args h =>
    if Nat.eqb fid 6 then (Throw (Thrown (VStr "boom")), h)
    else user_call R0 fid this args h;
  prim_get := prim_get R0;
  prim_keys := prim_keys R0;
  obj_to_string := obj_to_string R0;
  Object_prototype := 0;
  Function_prototype := 1;
  Model_prototype := 2 |}.

(** The built-in prototypes, [Model.prototype] with a method [save], a
    new InitGroup, two initialisers, a Model instance with an own
    property [pending] holding [undefined], and an extension class with
    the methods [foo], [pending], [save] and [setup] together with a
    new instance of it. *)
Definition h0 : heap :=
  [ obj None KObject [("toString", method (VObj toString_fn))];
    obj (Some 0) KObject [];
    obj (Some 0) KObject [("save", method (VObj save_fn))];
    fn 3;
    fn 4;
    obj (Some 0) KObject [];
    fn 6;
    fn 7;
    obj (Some 2) KObject [("pending", field VUndef)];
    obj (Some 0) KObject
      [("foo", method (VObj foo_fn)); ("pending", method (VObj foo_fn));
       ("save", method (VObj foo_fn)); ("setup", method (VObj setup_fn))];
    fn 10;
    fn 11;
    obj (Some ext_proto) KObject [] ].

Definition st0 : state := {| st_heap := h0; st_trace := [] |}.

(** [g = new InitGroup("g"); g.add("alpha", f); g.add("beta", g)] *)
Definition st_named : state :=
  snd ((InitGroup.constructor R0 group (VStr "g") VUndef ;;;
        InitGroup.add R0 group (VStr "alpha") (VObj init_f) VUndef ;;;
        InitGroup.add R0 group (VStr "beta") (VObj init_g) VUndef) st0).

(** [g = new InitGroup("g"); g.add("2", f); g.add("1", g)] *)
Definition st_numeric : state :=
  snd ((InitGroup.constructor R0 group (VStr "g") VUndef ;;;
        InitGroup.add R0 group (VStr "2") (VObj init_f) VUndef ;;;
        InitGroup.add R0 group (VStr "1") (VObj init_g) VUndef) st0).

(** [g = new InitGroup("g", model); g.add("alpha", f, true)] *)
Definition st_api : state :=
  snd ((InitGroup.constructor R0 group (VStr "g") (VObj model) ;;;
        InitGroup.add R0 group (VStr "alpha") (VObj init_f) (VBool true)) st0).

(** [new MyExtension(model)] *)
Definition st_ext : state := snd (Extension.constructor R0 0 ext (VObj model) st0).

(** The state after [ext.addHandledMethod("foo")]. *)
Definition st_foo : state :=
  snd (Extension.addHandledMethod R0 ext (VStr "foo") VUndef VUndef VUndef st_ext).

(** The state [st_ext] with [model.parent = 0] added. *)
Definition st_own : state :=
  {| st_heap := set_own (st_heap st_ext) model "parent" (VNum 0); st_trace := [] |}.

(** The two initialisers of [st_named] as the group holds them. *)
Definition inits_named : list InitGroup.init :=
  [ {| InitGroup.i_name := "alpha"; InitGroup.i_fn := init_f; InitGroup.i_fid := 6;
       InitGroup.i_bind := VBool false; InitGroup.i_ran := false |};
    {| InitGroup.i_name := "beta"; InitGroup.i_fn := init_g; InitGroup.i_fid := 7;
       InitGroup.i_bind := VBool false; InitGroup.i_ran := false |} ].

(** Arguments for [addHandledMethods]: the options object
    [{destName: "y", modelIsThis: true, canReplace: true}], the mapping
    [{foo: "x", pending: true, save: options}] and the array
    [["foo", "pending"]]. *)
Definition options : loc := 13.
Definition mapping : loc := 14.
Definition names : loc := 15.

Definition st_args : state :=
  {| st_heap :=
       (st_heap st_ext ++
       [ obj (Some 0) KObject
           [("destName", field (VStr "y")); ("modelIsThis", field (VBool true));
            ("canReplace", field (VBool true))];
         obj (Some 0) KObject
           [("foo", field (VStr "x")); ("pending", field (VBool true));
            ("save", field (VObj options))];
         obj (Some 0) KArray
           [("0", field (VStr "foo")); ("1", field (VStr "pending"));
            ("length", method (VNum 2))] ])%list;
     st_trace := [] |}.

End Example.

(** ** A client of InitGroup *)
Module Usage.
Import JS InitGroup.
Local Open Scope js_scope.

(** The calls [g.add(name, fn, bind)] for the initialisers [inits],
    one after another. *)
Fixpoint adds (R : realm) (this : loc) (inits : list init) : M unit :=
  match inits with
  | [] => ret tt
  | i :: rest =>
      add R this (VStr (i_name i)) (VObj (i_fn i)) (i_bind i) ;;; adds R this rest
  end.

(** The initialiser [i] as [add] stores it: [apiIsThis] defaults to
    [false], and the function has not run. *)
Definition stored (i : init) : init :=
  {| i_name := i_name i; i_fn := i_fn i; i_fid := i_fid i;
     i_bind := if is_undefined (i_bind i) then VBool false else i_bind i;
     i_ran := false |}.

(** The property that [add] creates for [i] in the methods object. *)
Definition slot (i : init) : string * prop :=
  (i_name i, {| p_val := VObj (i_fn i); p_enum := true |}).

End Usage.

(** ** Further states of the small world *)
Module Scenes.
Import JS Example.
Local Open Scope js_scope.

(** [st_named] after [g.need("alpha", null)]. *)
Definition st_alpha_ran : state :=
  snd (InitGroup.need R0 0 group (VStr "alpha") VNull st_named).

(** [st_named] after [g.run(null)]. *)
Definition st_all_ran : state := snd (InitGroup.run R0 0 group VNull st_named).

(** [st_named] after [g.add("gamma", f)], [f] being registered under
    "alpha" already. *)
Definition st_shared : state :=
  snd (InitGroup.add R0 group (VStr "gamma") (VObj init_f) VUndef st_named).

(** [g = new InitGroup("g", 0); g.add("alpha", f, true)]: an api that
    is not [null] and yet falsy. *)
Definition st_zero_api : state :=
  snd ((InitGroup.constructor R0 group (VStr "g") (VNum 0) ;;;
        InitGroup.add R0 group (VStr "alpha") (VObj init_f) (VBool true)) st0).

(** [g = new InitGroup("g", model); g.add("alpha", f, true);
    g.add("beta", f)]: the second [add] of [f] takes the default
    [apiIsThis = false]. *)
Definition st_rebound : state :=
  snd ((InitGroup.constructor R0 group (VStr "g") (VObj model) ;;;
        InitGroup.add R0 group (VStr "alpha") (VObj init_f) (VBool true) ;;;
        InitGroup.add R0 group (VStr "beta") (VObj init_f) VUndef) st0).

(** [st_foo] after [ext.foo = undefined]. *)
Definition st_gone : state :=
  {| st_heap := set_own (st_heap st_foo) ext "foo" VUndef; st_trace := [] |}.

(** Further arguments for [addHandledMethods], each at address 13 on
    top of [st_ext]: the array [["foo", "nope"]], the mapping
    [{a: 1, b: undefined, c: foo_fn}] and the mapping
    [{a: 1, foo: null}]. *)
Definition arg : loc := 13.

Definition st_partial : state :=
  {| st_heap :=
       (st_heap st_ext ++
        [ obj (Some 0) KArray
            [("0", field (VStr "foo")); ("1", field (VStr "nope"));
             ("length", method (VNum 2))] ])%list;
     st_trace := [] |}.

Definition st_skipped : state :=
  {| st_heap :=
       (st_heap st_ext ++
        [ obj (Some 0) KObject
            [("a", field (VNum 1)); ("b", field VUndef);
             ("c", field (VObj foo_fn))] ])%list;
     st_trace := [] |}.

Definition st_null : state :=
  {| st_heap :=
       (st_heap st_ext ++
        [ obj (Some 0) KObject [("a", field (VNum 1)); ("foo", field VNull)] ])%list;
     st_trace := [] |}.

End Scenes.

(* ================================================================== *)
(** * Part II. Properties *)
(* ================================================================== *)

(** ** Facts about the substrate *)
Module JSFacts.
Import JS.
Local Open Scope js_scope.

Lemma lookup_assign_same k v ps :
  p_val <$> lookup_prop k (assign_prop k v ps) = Some v.
Proof.
  induction ps as [|[k' p] ps IH]; simpl.
  - by rewrite String.eqb_refl.
  - destruct (String.eqb k k') eqn:E; simpl; rewrite E; done.
Qed.

Lemma lookup_assign_other k k' v ps :
  k <> k' -> lookup_prop k (assign_prop k' v ps) = lookup_prop k ps.
Proof.
  intros Hne. induction ps as [|[k0 p] ps IH]; simpl.
  - apply String.eqb_neq in Hne. by rewrite Hne.
  - destruct (String.eqb k' k0) eqn:E; simpl.
    + apply String.eqb_eq in E. subst k0.
      apply String.eqb_neq in Hne. by rewrite Hne.
    + by rewrite IH.
Qed.

Lemma length_set_own h l k v : length (set_own h l k v) = length h.
Proof.
  unfold set_own. destruct (h !! l); [apply length_insert | done].
Qed.

Lemma lookup_set_own_same h l k v o :
  h !! l = Some o ->
  set_own h l k v !! l =
    Some {| o_proto := o_proto o; o_kind := o_kind o;
            o_props := assign_prop k v (o_props o) |}.
Proof.
  intros H. unfold set_own. rewrite H.
  apply list_lookup_insert_eq. by eapply lookup_lt_Some.
Qed.

Lemma lookup_set_own_other h l k v l' :
  l <> l' -> set_own h l k v !! l' = h !! l'.
Proof.
  intros H. unfold set_own. destruct (h !! l); [|done].
  by apply list_lookup_insert_ne.
Qed.

(** Assignment changes neither the prototype nor the kind of any
    object, and no property under another key. *)
Lemma lookup_set_own h l k v l' :
  set_own h l k v !! l' =
    (fun o => {| o_proto := o_proto o; o_kind := o_kind o;
                 o_props := if decide (l = l') then assign_prop k v (o_props o)
                            else o_props o |}) <$> h !! l'.
Proof.
  destruct (decide (l = l')) as [->|Hne].
  - destruct (h !! l') as [o|] eqn:E.
    + by rewrite (lookup_set_own_same _ _ _ _ _ E).
    + unfold set_own. by rewrite E, E.
  - rewrite lookup_set_own_other by done.
    destruct (h !! l') as [[? ? ?]|]; done.
Qed.

Lemma own_get h l k v : own h l k = Some v -> get h l k = v.
Proof.
  unfold own, get. simpl. destruct (h !! l) as [o|]; [|done].
  destruct (lookup_prop k (o_props o)); simpl; congruence.
Qed.

Lemma own_has h l k v : own h l k = Some v -> has_property h l k = true.
Proof.
  unfold own, has_property. simpl. destruct (h !! l) as [o|]; [|done].
  destruct (lookup_prop k (o_props o)); simpl; congruence.
Qed.

Lemma own_set_own_same h l k v :
  is_Some (h !! l) -> own (set_own h l k v) l k = Some v.
Proof.
  intros [o Ho]. unfold own. rewrite (lookup_set_own_same _ _ _ _ _ Ho). simpl.
  apply lookup_assign_same.
Qed.

Lemma own_set_own_other h l k v l' k' :
  l <> l' \/ k' <> k -> own (set_own h l k v) l' k' = own h l' k'.
Proof.
  intros H. unfold own. rewrite lookup_set_own.
  destruct (h !! l') as [o|]; simpl; [|done].
  destruct (decide (l = l')) as [->|]; [|done].
  destruct H as [H|H]; [done|]. by rewrite lookup_assign_other.
Qed.

Lemma get_set_own_same h l k v :
  is_Some (h !! l) -> get (set_own h l k v) l k = v.
Proof. intros H. by apply own_get, own_set_own_same. Qed.

Lemma get_fuel_set_own_key n h l k v l' k' :
  k' <> k -> get_fuel n (set_own h l k v) l' k' = get_fuel n h l' k'.
Proof.
  intros Hne. revert l'. induction n as [|n IH]; intros l'; simpl; [done|].
  rewrite lookup_set_own. destruct (h !! l') as [o|]; simpl; [|done].
  assert (lookup_prop k' (if decide (l = l') then assign_prop k v (o_props o)
                          else o_props o) = lookup_prop k' (o_props o)) as ->.
  { destruct (decide (l = l')); [by apply lookup_assign_other | done]. }
  destruct (lookup_prop k' (o_props o)); [done|].
  destruct (o_proto o); [apply IH | done].
Qed.

(** A property read is not affected by an assignment under another
    key, wherever in the prototype chain it is found. *)
Lemma get_set_own_key h l k v l' k' :
  k' <> k -> get (set_own h l k v) l' k' = get h l' k'.
Proof.
  intros. unfold get. rewrite length_set_own. by apply get_fuel_set_own_key.
Qed.

Lemma get_fuel_set_own_or n h l k v l' :
  get_fuel n (set_own h l k v) l' k = get_fuel n h l' k
  \/ get_fuel n (set_own h l k v) l' k = v.
Proof.
  revert l'. induction n as [|n IH]; intros l'; simpl; [by left|].
  rewrite lookup_set_own. destruct (h !! l') as [o|]; simpl; [|by left].
  destruct (decide (l = l')) as [->|].
  - right. pose proof (lookup_assign_same k v (o_props o)) as H.
    destruct (lookup_prop k (assign_prop k v (o_props o))); simpl in H; congruence.
  - destruct (lookup_prop k (o_props o)); [by left|].
    destruct (o_proto o); [apply IH | by left].
Qed.

(** Under the assigned key, a read yields the old value or the new. *)
Lemma get_set_own_or h l k v l' :
  get (set_own h l k v) l' k = get h l' k \/ get (set_own h l k v) l' k = v.
Proof. unfold get. rewrite length_set_own. apply get_fuel_set_own_or. Qed.

Lemma code_of_set_own h l k v l' : code_of (set_own h l k v) l' = code_of h l'.
Proof.
  unfold code_of. rewrite lookup_set_own.
  destruct (h !! l') as [[? [] ?]|]; done.
Qed.

Lemma callable_code h v :
  callable h v = true <-> exists l c, v = VObj l /\ code_of h l = Some c.
Proof.
  unfold callable, code_of. split.
  - destruct v as [| | | | |l]; try done.
    destruct (h !! l) as [[? [| |c] ?]|] eqn:E; try done.
    intros _. exists l, c. by rewrite E.
  - intros (l & c & -> & H). destruct (h !! l) as [[? [] ?]|]; done.
Qed.

Lemma callable_alloc h l : callable h (VObj l) = true -> is_Some (h !! l).
Proof. unfold callable. destruct (h !! l); [by eexists | done]. Qed.

Lemma callable_set_own h l k v x : callable (set_own h l k v) x = callable h x.
Proof.
  destruct x as [| | | | |l']; try done. simpl.
  rewrite lookup_set_own. destruct (h !! l') as [[? [] ?]|]; done.
Qed.

Lemma typeof_set_own h l k v x : typeof (set_own h l k v) x = typeof h x.
Proof. destruct x; try done. unfold typeof. by rewrite callable_set_own. Qed.

(** [typeof v === F] holds exactly of the callable values. *)
Lemma typeof_F h v : String.eqb (typeof h v) types.F = callable h v.
Proof.
  destruct v as [| | | | |l]; try done.
  unfold typeof. destruct (callable h (VObj l)); done.
Qed.

Lemma typeof_S h v :
  String.eqb (typeof h v) types.S = match v with VStr _ => true | _ => false end.
Proof.
  destruct v as [| | | | |l]; try done.
  unfold typeof. destruct (callable h (VObj l)); done.
Qed.

Lemma own_ext (h h' : heap) l k : h' !! l = h !! l -> own h' l k = own h l k.
Proof. unfold own. by intros ->. Qed.

Lemma code_of_ext (h h' : heap) l : h' !! l = h !! l -> code_of h' l = code_of h l.
Proof. unfold code_of. by intros ->. Qed.

Lemma code_of_alloc (h : heap) l c : code_of h l = Some c -> is_Some (h !! l).
Proof. unfold code_of. destruct (h !! l); [by eexists | done]. Qed.

Lemma code_of_lookup (h : heap) l o :
  h !! l = Some o ->
  code_of h l = match o_kind o with KFunction c => Some c | _ => None end.
Proof. unfold code_of. intros ->. by destruct o as [? [] ?]. Qed.

Lemma has_fuel_get_fuel n h l k : has_fuel n h l k = false -> get_fuel n h l k = VUndef.
Proof.
  revert l. induction n as [|n IH]; intros l; simpl; [done|].
  destruct (h !! l) as [o|]; [|done].
  destruct (lookup_prop k (o_props o)); [done|].
  destruct (o_proto o); [apply IH | done].
Qed.

(** A property that is nowhere on the prototype chain reads as
    [undefined]. *)
Lemma absent_get h l k : has_property h l k = false -> get h l k = VUndef.
Proof. apply has_fuel_get_fuel. Qed.

(** A property found on the prototype, the object having none of its
    own under the key. *)
Lemma inherited_get (h : heap) l o q k v :
  h !! l = Some o -> lookup_prop k (o_props o) = None ->
  o_proto o = Some q -> own h q k = Some v ->
  get h l k = v.
Proof.
  intros Hl Hk Hq Hv. unfold get. simpl. rewrite Hl, Hk, Hq.
  destruct (length h) as [|n] eqn:E.
  { apply lookup_lt_Some in Hl. lia. }
  simpl. unfold own in Hv. destruct (h !! q) as [oq|]; [|done].
  destruct (lookup_prop k (o_props oq)); simpl in Hv; by simplify_eq.
Qed.

Local Open Scope list_scope.

(** *** The order of enumeration *)

Lemma in_insert_index x y l : In x (insert_index y l) <-> x = y \/ In x l.
Proof.
  induction l as [|z l IH]; simpl.
  - intuition.
  - destruct (fst y <=? fst z)%N; simpl; intuition.
Qed.

Lemma in_sort_index x l : In x (sort_index l) <-> In x l.
Proof.
  induction l as [|y l IH]; simpl; [done|].
  rewrite in_insert_index, IH. intuition.
Qed.

Lemma insert_index_sorted x l :
  Sorted index_le l -> Sorted index_le (insert_index x l).
Proof.
  induction 1 as [|y l Hs IH Hhd]; simpl.
  - by repeat constructor.
  - destruct (fst x <=? fst y)%N eqn:E.
    + constructor; [by constructor|]. constructor. by apply N.leb_le.
    + constructor; [done|].
      apply N.leb_gt in E.
      destruct l as [|z l]; simpl.
      * constructor. unfold index_le. lia.
      * destruct (fst x <=? fst z)%N; constructor.
        -- unfold index_le. lia.
        -- by inversion Hhd.
Qed.

(** The array indices come in ascending numeric order. *)
Lemma sort_index_sorted l : Sorted index_le (sort_index l).
Proof.
  induction l as [|x l IH]; simpl; [constructor | by apply insert_index_sorted].
Qed.

(** Where no key is an array index, the order of enumeration is the
    order of creation. *)
Lemma own_keys_names ps :
  Forall (fun kp => is_name (fst kp) = true) ps -> own_keys ps = map fst ps.
Proof.
  intros H.
  assert (index_keys ps = []) as E1.
  { induction H as [|[k p] ps Hk Hall IH]; [done|].
    unfold index_keys in *. cbn [omap list_omap fst]. fold (@omap list _).
    unfold is_name in Hk. simpl in Hk. destruct (array_index k); [done|].
    exact IH. }
  assert (name_keys ps = map fst ps) as E2.
  { clear E1. unfold name_keys. induction H as [|[k p] ps Hk Hall IH]; [done|].
    cbn [map List.filter fst] in *. by rewrite Hk, IH. }
  unfold own_keys. by rewrite E1, E2.
Qed.

Lemma in_own_keys k ps : In k (own_keys ps) -> In k (map fst ps).
Proof.
  unfold own_keys. rewrite in_app_iff. intros [H|H].
  - apply in_map_iff in H as ([n k'] & <- & H). simpl.
    apply (proj1 (in_sort_index _ _)) in H. unfold index_keys in H.
    apply list_elem_of_In, list_elem_of_omap in H as ([k0 p] & Hin & Heq).
    simpl in Heq. destruct (array_index k0); simplify_eq.
    apply list_elem_of_In in Hin. apply in_map_iff. by exists (k', p).
  - unfold name_keys in H. by apply filter_In in H as [H _].
Qed.

Lemma lookup_prop_in k ps :
  In k (map fst ps) -> exists p, lookup_prop k ps = Some p /\ In (k, p) ps.
Proof.
  induction ps as [|[k' p] ps IH]; simpl; [done|].
  intros H. destruct (String.eqb k k') eqn:E.
  - apply String.eqb_eq in E as ->. eauto.
  - apply String.eqb_neq in E. destruct H as [->|H]; [done|].
    destruct (IH H) as (p' & ? & ?). eauto.
Qed.

Lemma enumerable_own_keys b k ps :
  Forall (fun kp => p_enum (snd kp) = b) ps ->
  In k (own_keys ps) -> enumerable k ps = b.
Proof.
  intros Hall Hin. apply in_own_keys, lookup_prop_in in Hin as (p & Hl & Hin).
  unfold enumerable. rewrite Hl.
  rewrite Forall_forall in Hall. apply list_elem_of_In in Hin. by apply (Hall _ Hin).
Qed.

Lemma filter_all {A} (f : A -> bool) l :
  (forall x, In x l -> f x = true) -> List.filter f l = l.
Proof.
  induction l as [|x l IH]; simpl; intros H; [done|].
  rewrite (H x) by (by left). f_equal. apply IH. intros; apply H; by right.
Qed.

Lemma filter_none {A} (f : A -> bool) l :
  (forall x, In x l -> f x = false) -> List.filter f l = [].
Proof.
  induction l as [|x l IH]; simpl; intros H; [done|].
  rewrite (H x) by (by left). apply IH. intros; apply H; by right.
Qed.

(** The enumeration of an object whose own properties are all
    enumerable and whose prototype, like [Object.prototype], has none
    that is: the own keys, array indices first. *)
Lemma enum_keys_own R (h : heap) m om q oq :
  h !! m = Some om ->
  Forall (fun kp => p_enum (snd kp) = true) (o_props om) ->
  o_proto om = Some q ->
  h !! q = Some oq ->
  o_proto oq = None ->
  Forall (fun kp => p_enum (snd kp) = false) (o_props oq) ->
  enum_keys R h (VObj m) = own_keys (o_props om).
Proof.
  intros Hm Hen Hq Hoq Hnone Hhid. unfold enum_keys. simpl.
  rewrite Hm, Hq.
  destruct (length h) as [|n] eqn:E.
  { apply lookup_lt_Some in Hm. lia. }
  simpl. rewrite Hoq, Hnone, app_nil_r.
  rewrite filter_all, filter_none.
  - by rewrite app_nil_r.
  - intros k Hk. by rewrite (enumerable_own_keys false).
  - intros k Hk. by rewrite (enumerable_own_keys true).
Qed.

End JSFacts.


(** ** InitGroup *)
Module InitGroupSpec.
Import JS JSFacts InitGroup.
Local Open Scope list_scope.
Local Open Scope js_scope.

#[local] Arguments get : simpl never.
#[local] Arguments set_own : simpl never.
#[local] Arguments callable : simpl never.
#[local] Arguments typeof : simpl never.
#[local] Arguments call : simpl never.
#[local] Arguments enum_keys : simpl never.
#[local] Arguments has_property : simpl never.
#[local] Arguments String.eqb : simpl never.

Section WithRealm.
Variable R : realm.

Lemma call_host fuel f fid this args st :
  code_of (st_heap st) f = Some (CUser fid) ->
  call R fuel (VObj f) this args st =
    (fst (user_call R fid this args (st_heap st)),
     {| st_heap := snd (user_call R fid this args (st_heap st));
        st_trace := st_trace st ++ [ECall f this args] |}).
Proof.
  intros H. destruct fuel; unfold call; rewrite H;
    by destruct (user_call R fid this args (st_heap st)).
Qed.

(** Calls, through any depth of forwarders, change the heap only by
    what host functions do. *)
Lemma call_keeps (P : heap -> Prop) :
  keeps R P ->
  forall fuel f this args st,
    P (st_heap st) -> P (st_heap (snd (call R fuel f this args st))).
Proof.
  intros HP fuel. induction fuel as [|n IH]; intros f this args st H.
  - unfold call. destruct f as [| | | | |l]; try done.
    destruct (code_of (st_heap st) l) as [[fid|ext src at_]|]; try done.
    specialize (HP fid this args _ H).
    by destruct (user_call R fid this args (st_heap st)).
  - unfold call; fold call. destruct f as [| | | | |l]; try done.
    destruct (code_of (st_heap st) l) as [[fid|ext src at_]|]; try done.
    + specialize (HP fid this args _ H).
      by destruct (user_call R fid this args (st_heap st)).
    + unfold forwarder_body, bind, read, get_member. simpl.
      destruct (callable _ _); [|done].
      specialize (IH (get (st_heap st) ext (to_string R (st_heap st) src)) at_ args st H).
      destruct (call R n _ at_ args st) as [[r| |] st']; done.
Qed.

(** The evaluation of [need] on a registered function that has not
    run. *)
Lemma need_unrun fuel g m name f conf st :
  get (st_heap st) g "methods" = VObj m ->
  get (st_heap st) m name = VObj f ->
  callable (st_heap st) (VObj f) = true ->
  truthy (get (st_heap st) f "_run_init") = false ->
  let wantThis :=
    if truthy (get (st_heap st) f "_this_api") && truthy (get (st_heap st) g "api")
    then get (st_heap st) g "api" else VObj g in
  need R fuel g (VStr name) conf st =
    match call R fuel (VObj f) wantThis [conf] st with
    | (Ret r, st1) =>
        (Ret r, {| st_heap := set_own (st_heap st1) f "_run_init" (VBool true);
                   st_trace := st_trace st1 |})
    | (Throw e, st1) => (Throw e, st1)
    | (Diverge, st1) => (Diverge, st1)
    end.
Proof.
  intros Hm Hf Hc Hrun wantThis.
  unfold need, bind, read, get_member. simpl.
  rewrite Hm. simpl. rewrite Hf, typeof_F, Hc. simpl.
  rewrite Hrun. fold wantThis.
  destruct (call R fuel (VObj f) wantThis [conf] st) as [[r| |] st1]; done.
Qed.

(** The evaluation of [need] on a function that has run. *)
Lemma need_ran fuel g m name f conf st :
  get (st_heap st) g "methods" = VObj m ->
  get (st_heap st) m name = VObj f ->
  callable (st_heap st) (VObj f) = true ->
  truthy (get (st_heap st) f "_run_init") = true ->
  need R fuel g (VStr name) conf st = (Ret (VBool true), st).
Proof.
  intros Hm Hf Hc Hrun.
  unfold need, bind, read, get_member. simpl.
  rewrite Hm. simpl. rewrite Hf, typeof_F, Hc. simpl.
  by rewrite Hrun.
Qed.

(** C3, as the code has it. A registered initialiser [f] that has not
    run is invoked by [need(name, conf)] with [conf] as its only
    argument. The receiver is the group's [api] when the flag
    [_this_api] that [f] carries at the time of the call is truthy and
    [api] is truthy, and the group itself in every other case: the
    test of line 57 is one of truthiness, so that an api such as [0],
    the empty string or [false] counts as no api, and the flag is the
    one the most recent [add] of the function object has stored. When the
    invocation returns [r], whatever [r] is, [need] returns [r] and
    [f._run_init] is [true] afterwards. *)
Theorem need_invokes_unrun fuel g m name f conf st r st1 :
  get (st_heap st) g "methods" = VObj m ->
  get (st_heap st) m name = VObj f ->
  callable (st_heap st) (VObj f) = true ->
  truthy (get (st_heap st) f "_run_init") = false ->
  let bind := get (st_heap st) f "_this_api" in
  let api := get (st_heap st) g "api" in
  let receiver := if truthy bind && truthy api then api else VObj g in
  call R fuel (VObj f) receiver [conf] st = (Ret r, st1) ->
  is_Some (st_heap st1 !! f) ->
  need R fuel g (VStr name) conf st =
    (Ret r, {| st_heap := set_own (st_heap st1) f "_run_init" (VBool true);
               st_trace := st_trace st1 |})
  /\ get (set_own (st_heap st1) f "_run_init" (VBool true)) f "_run_init"
     = VBool true.
Proof.
  intros Hm Hf Hc Hrun bind api receiver Hcall Hal.
  split; [|by apply get_set_own_same].
  rewrite (need_unrun _ _ _ _ _ _ _ Hm Hf Hc Hrun).
  fold bind api receiver. by rewrite Hcall.
Qed.

(** Setting the run mark of some function keeps every registration
    and every mark there is. *)
Lemma registered_mark h g m name f f' :
  callable h (VObj f') = true ->
  registered h g m name f ->
  forall h1, registered h1 g m name f ->
  registered (set_own h1 f' "_run_init" (VBool true)) g m name f.
Proof.
  intros Hc' (_ & Hk' & _ & _) h1 (Hm & Hk & Ho & Hc).
  unfold registered.
  rewrite get_set_own_key by done. rewrite code_of_set_own, callable_set_own.
  repeat split; try done.
  rewrite own_set_own_other; [done|]. left. intros ->.
  apply callable_code in Hc' as (? & c & [= <-] & Hc'). congruence.
Qed.

Lemma has_run_mark h f f' :
  has_run h f -> has_run (set_own h f' "_run_init" (VBool true)) f.
Proof.
  unfold has_run. intros H.
  destruct (get_set_own_or h f' "_run_init" (VBool true) f) as [-> | ->]; done.
Qed.

(** [need], for any name and with any outcome, keeps a registration
    together with its run mark. *)
Lemma need_keeps_ran g m name f :
  keeps R (fun h => registered h g m name f) ->
  keeps R (fun h => has_run h f) ->
  forall fuel name' conf st,
    registered (st_heap st) g m name f /\ has_run (st_heap st) f ->
    registered (st_heap (snd (need R fuel g name' conf st))) g m name f
    /\ has_run (st_heap (snd (need R fuel g name' conf st))) f.
Proof.
  intros Kreg Krun fuel name' conf st [Hreg Hrun].
  assert (keeps R (fun h => registered h g m name f /\ has_run h f)) as K.
  { intros fid this args h [? ?]. split; [by apply Kreg | by apply Krun]. }
  pose proof Hreg as (Hm & _).
  unfold need, bind, read, get_member. simpl. rewrite Hm. simpl.
  rewrite typeof_F.
  destruct (callable (st_heap st) _) eqn:Hc; simpl; [|done].
  apply callable_code in Hc as Hc'. destruct Hc' as (f' & c & Hf' & Hcode).
  rewrite Hf' in *. simpl.
  destruct (truthy (get (st_heap st) f' "_run_init")); simpl; [done|].
  set (wantThis := if _ && _ then _ else _).
  pose proof (call_keeps _ K fuel (VObj f') wantThis [conf] st (conj Hreg Hrun)) as H1.
  destruct (call R fuel (VObj f') wantThis [conf] st) as [[r| |] st1]; simpl in *; try done.
  destruct H1 as [H1 H2]. split.
  - by eapply registered_mark.
  - by apply has_run_mark.
Qed.

Lemma needs_keep_ran g m name f :
  keeps R (fun h => registered h g m name f) ->
  keeps R (fun h => has_run h f) ->
  forall fuel calls st,
    registered (st_heap st) g m name f /\ has_run (st_heap st) f ->
    registered (st_heap (needs R fuel g calls st)) g m name f
    /\ has_run (st_heap (needs R fuel g calls st)) f.
Proof.
  intros Kreg Krun fuel calls. induction calls as [|[n c] calls IH]; intros st H; [done|].
  simpl. apply IH. by apply need_keeps_ran.
Qed.

Lemma invocations_app f tr tr' :
  invocations f (tr ++ tr') = invocations f tr + invocations f tr'.
Proof.
  induction tr as [|[f' ? ?|?] tr IH]; simpl; [done| |done].
  rewrite IH. lia.
Qed.

(** A completed [need] on a registered name leaves the function
    marked. *)
Lemma need_completed_ran g m name f :
  keeps R (fun h => registered h g m name f) ->
  forall fuel st conf r st1,
    registered (st_heap st) g m name f ->
    need R fuel g (VStr name) conf st = (Ret r, st1) ->
    registered (st_heap st1) g m name f /\ has_run (st_heap st1) f.
Proof.
  intros Kreg fuel st conf r st1 Hreg Hneed.
  pose proof Hreg as (Hm & Hk & Ho & Hc). apply own_get in Ho.
  destruct (truthy (get (st_heap st) f "_run_init")) eqn:Hrun.
  - rewrite (need_ran _ _ _ _ _ _ _ Hm Ho Hc Hrun) in Hneed. by simplify_eq.
  - rewrite (need_unrun _ _ _ _ _ _ _ Hm Ho Hc Hrun) in Hneed.
    set (wantThis := if _ && _ then _ else _) in Hneed.
    pose proof (call_keeps _ Kreg fuel (VObj f) wantThis [conf] st Hreg) as H1.
    destruct (call R fuel (VObj f) wantThis [conf] st) as [[r'| |] st']; simplify_eq.
    simpl in *. split.
    + by eapply registered_mark.
    + unfold has_run. rewrite get_set_own_same; [done|].
      destruct H1 as (_ & _ & _ & Hc'). by apply callable_alloc.
Qed.

(** C1. Once [need(name, conf)] has completed for a registered name,
    every later [need(name, conf2)], after any other [need] calls on
    the group, returns [true] and changes nothing: neither the heap
    nor the trace, so the initialiser is not invoked again. Counted on
    the trace, a first call on a host function that had not run,
    followed by any number of further calls for that name, invokes it
    exactly once. Host functions are assumed to leave the registration
    and the run mark in place. *)
Theorem need_idempotent g m name f :
  keeps R (fun h => registered h g m name f) ->
  keeps R (fun h => has_run h f) ->
  forall fuel st conf r st1,
    registered (st_heap st) g m name f ->
    need R fuel g (VStr name) conf st = (Ret r, st1) ->
    (forall calls conf2,
       let st2 := needs R fuel g calls st1 in
       need R fuel g (VStr name) conf2 st2 = (Ret (VBool true), st2))
    /\ (truthy (get (st_heap st) f "_run_init") = false ->
        (exists fid, code_of (st_heap st) f = Some (CUser fid)) ->
        forall confs,
          invocations f (st_trace (needs R fuel g
                           (map (fun c => (VStr name, c)) confs) st1))
          = 1 + invocations f (st_trace st)).
Proof.
  intros Kreg Krun fuel st conf r st1 Hreg Hneed.
  pose proof (need_completed_ran _ _ _ _ Kreg _ _ _ _ _ Hreg Hneed) as Hran.
  assert (forall calls conf2,
            let st2 := needs R fuel g calls st1 in
            need R fuel g (VStr name) conf2 st2 = (Ret (VBool true), st2)) as Hlater.
  { intros calls conf2 st2.
    destruct (needs_keep_ran _ _ _ _ Kreg Krun fuel calls st1 Hran)
      as [(Hm & _ & Ho & Hc) Hrun].
    apply own_get in Ho. by apply (need_ran _ _ m _ f). }
  split; [done|].
  intros Hunrun [fid Hfid] confs.
  assert (needs R fuel g (map (fun c => (VStr name, c)) confs) st1 = st1) as ->.
  { induction confs as [|c confs IH]; [done|]. simpl.
    pose proof (Hlater [] c) as E. simpl in E. by rewrite E. }
  destruct Hreg as (Hm & _ & Ho & Hc). apply own_get in Ho.
  rewrite (need_unrun _ _ _ _ _ _ _ Hm Ho Hc Hunrun), (call_host _ _ _ _ _ _ Hfid) in Hneed.
  destruct (fst (user_call R fid _ [conf] (st_heap st))); simplify_eq.
  simpl. rewrite invocations_app. simpl. rewrite Nat.eqb_refl. lia.
Qed.

(** One turn of the loop: an initialiser that has not run is invoked
    and marked, one that has run is passed over. *)
Lemma run_body_entry L fuel g m api conf i st :
  untouched R L -> returns R ->
  In g L -> In m L -> In (i_fn i) L ->
  own (st_heap st) g "methods" = Some (VObj m) ->
  own (st_heap st) g "api" = Some api ->
  code_of (st_heap st) m = None ->
  entry (st_heap st) m i ->
  exists h1,
    run_body R fuel g m conf (i_name i) st =
      (Ret tt,
       if i_ran i then st
       else {| st_heap := set_own h1 (i_fn i) "_run_init" (VBool true);
               st_trace := st_trace st ++ [ECall (i_fn i) (receiver g api i) [conf]] |})
    /\ forall l, In l L -> h1 !! l = st_heap st !! l.
Proof.
  intros Hun Hret Hg Hm_ Hf Hmeth Hapi Hk (Hent & Hcode & Hbind & Hflag).
  exists (snd (user_call R (i_fid i) (receiver g api i) [conf] (st_heap st))).
  split; [|intros l Hl; by apply Hun].
  assert (callable (st_heap st) (VObj (i_fn i)) = true) as Hc.
  { apply callable_code. eauto. }
  unfold run_body, bind, read. simpl.
  rewrite (own_has _ _ _ _ Hent).
  destruct (i_ran i).
  - rewrite (need_ran fuel g m (i_name i) (i_fn i) conf st); try done.
    + by apply own_get.
    + by apply own_get.
    + by rewrite (own_get _ _ _ _ Hflag).
  - rewrite (need_unrun fuel g m (i_name i) (i_fn i) conf st); try done.
    + rewrite (own_get _ _ _ _ Hbind), (own_get _ _ _ _ Hapi).
      fold (receiver g api i).
      rewrite (call_host _ _ _ _ _ _ Hcode).
      destruct (Hret (i_fid i) (receiver g api i) [conf] (st_heap st)) as [r ->]. done.
    + by apply own_get.
    + by apply own_get.
    + by rewrite (own_get _ _ _ _ Hflag).
Qed.

Lemma run_loop L fuel g m api conf :
  untouched R L -> returns R -> In g L -> In m L ->
  forall rest st,
    incl (map i_fn rest) L ->
    NoDup (map i_fn rest) ->
    own (st_heap st) g "methods" = Some (VObj m) ->
    own (st_heap st) g "api" = Some api ->
    code_of (st_heap st) m = None ->
    Forall (entry (st_heap st) m) rest ->
    exists st',
      for_each (map i_name rest) (run_body R fuel g m conf) st = (Ret tt, st')
      /\ st_trace st' = st_trace st ++
           map (fun i => ECall (i_fn i) (receiver g api i) [conf]) (List.filter pending rest)
      /\ Forall (fun i => own (st_heap st') (i_fn i) "_run_init" = Some (VBool true)) rest
      /\ forall l, In l L -> ~ In l (map i_fn rest) -> st_heap st' !! l = st_heap st !! l.
Proof.
  intros Hun Hret Hg Hm_. induction rest as [|i rest IH];
    intros st Hincl Hnd Hmeth Hapi Hk Hall.
  - exists st. simpl. rewrite app_nil_r. by repeat split.
  - simpl in Hincl, Hnd. apply NoDup_cons in Hnd as [Hni Hnd].
    apply Forall_cons in Hall as [Hi Hall].
    assert (In (i_fn i) L) as Hf by (apply Hincl; by left).
    destruct (run_body_entry L fuel g m api conf i st Hun Hret Hg Hm_ Hf Hmeth Hapi Hk Hi)
      as (h1 & Hbody & Hfr).
    pose proof Hi as (Hent & Hcode & Hbind & Hflag).
    assert (m <> i_fn i) as Hmf by (intros ->; congruence).
    set (st1 := if i_ran i then st
                else {| st_heap := set_own h1 (i_fn i) "_run_init" (VBool true);
                        st_trace := st_trace st ++
                                    [ECall (i_fn i) (receiver g api i) [conf]] |}) in *.
    assert (forall l k, In l L -> l <> i_fn i \/ k <> "_run_init" ->
              own (st_heap st1) l k = own (st_heap st) l k) as Hown.
    { intros l k Hl Hlk. subst st1. destruct (i_ran i); [done|]. simpl.
      rewrite own_set_own_other by (destruct Hlk; [left|right]; congruence).
      by apply own_ext, Hfr. }
    assert (forall l, In l L -> code_of (st_heap st1) l = code_of (st_heap st) l) as Hcof.
    { intros l Hl. subst st1. destruct (i_ran i); [done|]. simpl.
      rewrite code_of_set_own. by apply code_of_ext, Hfr. }
    assert (own (st_heap st1) (i_fn i) "_run_init" = Some (VBool true)) as Hmark.
    { subst st1. destruct (i_ran i); [done|]. simpl.
      apply own_set_own_same. rewrite (Hfr _ Hf). by eapply code_of_alloc. }
    assert (forall l, In l L -> l <> i_fn i -> st_heap st1 !! l = st_heap st !! l) as Hsame.
    { intros l Hl Hne. subst st1. destruct (i_ran i); [done|]. simpl.
      rewrite lookup_set_own_other by done. by apply Hfr. }
    destruct (IH st1) as (st' & Hloop & Htr & Hmarks & Hfr').
    + intros l Hl. apply Hincl. by right.
    + done.
    + rewrite Hown; [done|done|by right].
    + rewrite Hown; [done|done|by right].
    + by rewrite Hcof.
    + apply Forall_forall. intros i' Hi'.
      rewrite Forall_forall in Hall. destruct (Hall i' Hi') as (He' & Hc' & Hb' & Hf').
      apply list_elem_of_In in Hi'.
      assert (In (i_fn i') L) as HL'.
      { apply Hincl. right. by apply in_map. }
      assert (i_fn i' <> i_fn i) as Hne.
      { intros E. apply Hni. apply list_elem_of_In. rewrite <- E. by apply in_map. }
      unfold entry. rewrite Hcof by done.
      rewrite !Hown; [done|done|by left|done|by left|done|by left].
    + exists st'. split; [|split; [|split]].
      * simpl. unfold bind at 1. by rewrite Hbody.
      * rewrite Htr. subst st1. unfold pending. simpl.
        destruct (i_ran i); simpl; [done|]. by rewrite <- app_assoc.
      * apply Forall_cons. split; [|done].
        rewrite (own_ext (st_heap st1)); [done|].
        apply Hfr'; [done|]. intros Hin. apply Hni. by apply list_elem_of_In.
      * intros l Hl Hnl. rewrite Hfr'.
        -- apply Hsame; [done|]. intros ->. apply Hnl. by left.
        -- done.
        -- intros Hin. apply Hnl. by right.
Qed.

Lemma for_in_eq {A} v (body : string -> M A) st :
  for_in R v body st =
    for_each (enum_keys R (st_heap st) v)
      (fun k => present <- read (fun h => still_has h v k) ;;
                if present then body k ;;; ret tt else ret tt) st.
Proof. done. Qed.

(** [run] on a group of distinct host functions. *)
Lemma run_each g m api (inits : list init) :
  untouched R (g :: m :: map i_fn inits) ->
  returns R ->
  forall fuel st conf,
    own (st_heap st) g "methods" = Some (VObj m) ->
    own (st_heap st) g "api" = Some api ->
    code_of (st_heap st) m = None ->
    enum_keys R (st_heap st) (VObj m) = map i_name inits ->
    NoDup (map i_fn inits) ->
    Forall (entry (st_heap st) m) inits ->
    exists st',
      run R fuel g conf st = (Ret VUndef, st')
      /\ st_trace st' = st_trace st ++
           map (fun i => ECall (i_fn i) (receiver g api i) [conf]) (List.filter pending inits)
      /\ Forall (fun i => own (st_heap st') (i_fn i) "_run_init" = Some (VBool true))
           inits.
Proof.
  intros Hun Hret fuel st conf Hmeth Hapi Hk Hkeys Hnd Hall.
  destruct (run_loop (g :: m :: map i_fn inits) fuel g m api conf Hun Hret
              ltac:(by left) ltac:(right; by left) inits st)
    as (st' & Hloop & Htr & Hmarks & _); try done.
  { intros l Hl. by do 2 right. }
  exists st'. repeat split; try done.
  unfold run, bind at 1, get_member, read.
  rewrite (own_get _ _ _ _ Hmeth).
  unfold bind at 1. rewrite for_in_eq, Hkeys.
  fold (run_body R fuel g m conf). by rewrite Hloop.
Qed.

(** C2, as the code has it. [run(conf)] goes through the names of
    [methods] in the order of [for-in] and calls [need(name, conf)] for
    each. On a group whose initialisers are distinct host functions,
    every one that has not run is invoked exactly once, in that order,
    with its receiver and with [conf], whatever the earlier ones
    returned, and those that have run are not invoked again;
    afterwards all are marked, and [run] returns [undefined]. Host
    functions are assumed to return and to leave the group, its methods
    object and the registered functions alone. *)
Theorem run_invokes_each g m api (inits : list init) :
  untouched R (g :: m :: map i_fn inits) ->
  returns R ->
  forall fuel st conf,
    own (st_heap st) g "methods" = Some (VObj m) ->
    own (st_heap st) g "api" = Some api ->
    code_of (st_heap st) m = None ->
    enum_keys R (st_heap st) (VObj m) = map i_name inits ->
    NoDup (map i_fn inits) ->
    Forall (entry (st_heap st) m) inits ->
    exists st',
      run R fuel g conf st = (Ret VUndef, st')
      /\ st_trace st' = st_trace st ++
           map (fun i => ECall (i_fn i) (receiver g api i) [conf]) (List.filter pending inits)
      /\ Forall (fun i => own (st_heap st') (i_fn i) "_run_init" = Some (VBool true))
           inits.
Proof. apply run_each. Qed.

(** Where no registered name is an array index, the order of [run] is
    the order of registration: [inits] lists the properties of the
    methods object as [add] has created them, on top of a prototype
    that, like [Object.prototype], has nothing enumerable. *)
Lemma run_in_registration_order g m api (inits : list init) om q oq :
  untouched R (g :: m :: map i_fn inits) ->
  returns R ->
  forall fuel st conf,
    own (st_heap st) g "methods" = Some (VObj m) ->
    own (st_heap st) g "api" = Some api ->
    code_of (st_heap st) m = None ->
    st_heap st !! m = Some om ->
    map fst (o_props om) = map i_name inits ->
    Forall (fun kp => is_name (fst kp) = true) (o_props om) ->
    Forall (fun kp => p_enum (snd kp) = true) (o_props om) ->
    o_proto om = Some q ->
    st_heap st !! q = Some oq ->
    o_proto oq = None ->
    Forall (fun kp => p_enum (snd kp) = false) (o_props oq) ->
    NoDup (map i_fn inits) ->
    Forall (entry (st_heap st) m) inits ->
    exists st',
      run R fuel g conf st = (Ret VUndef, st')
      /\ st_trace st' = st_trace st ++
           map (fun i => ECall (i_fn i) (receiver g api i) [conf]) (List.filter pending inits)
      /\ Forall (fun i => own (st_heap st') (i_fn i) "_run_init" = Some (VBool true))
           inits.
Proof.
  intros Hun Hret fuel st conf Hmeth Hapi Hk Hm Hnames Hisname Hen Hq Hoq Hnone Hhid.
  apply run_each; try done.
  rewrite (enum_keys_own R _ m om q oq) by done.
  by rewrite own_keys_names.
Qed.

(** A throwing initialiser does stop [run]: the exception leaves the
    loop. *)
Lemma need_throws fuel g m name f conf st e st1 :
  get (st_heap st) g "methods" = VObj m ->
  get (st_heap st) m name = VObj f ->
  callable (st_heap st) (VObj f) = true ->
  truthy (get (st_heap st) f "_run_init") = false ->
  call R fuel (VObj f)
    (if truthy (get (st_heap st) f "_this_api") && truthy (get (st_heap st) g "api")
     then get (st_heap st) g "api" else VObj g) [conf] st = (Throw e, st1) ->
  need R fuel g (VStr name) conf st = (Throw e, st1).
Proof.
  intros Hm Hf Hc Hrun Hcall.
  by rewrite (need_unrun _ _ _ _ _ _ _ Hm Hf Hc Hrun), Hcall.
Qed.

(** When [add] does not register. *)
Lemma add_fails g name method apiIsThis st :
  (exists s m,
     name = VStr s /\ get (st_heap st) g "methods" = VObj m /\
     get (st_heap st) m s <> VUndef)
  \/ (forall s, name <> VStr s)
  \/ callable (st_heap st) method = false ->
  exists msg,
    add R g name method apiIsThis st =
      (Ret (VBool false),
       {| st_heap := st_heap st;
          st_trace := st_trace st ++ [EConsoleError [VStr msg; name; method; VObj g]] |}).
Proof.
  intros H. unfold add, bind, read, console_error, emit. simpl.
  rewrite typeof_S, typeof_F.
  destruct name as [| | | |s|]; simpl; try by eexists.
  destruct (callable (st_heap st) method) eqn:Hc; simpl; [|by eexists].
  destruct H as [(s' & m & [= <-] & Hm & Hne)|[H|H]]; [|by destruct (H s)|done].
  unfold get_member, read. simpl. rewrite Hm. simpl.
  destruct (get (st_heap st) m s); try done; by eexists.
Qed.

(** C4. [add] on a name whose entry in [methods] is taken, on a name
    that is not a string, or with a method that is not callable returns
    [false] without throwing; it writes one line with [console.error]
    and leaves the heap as it was, so the entry and the flags of the
    function first registered stay, and [need] and [run] go on finding
    that function. *)
Theorem add_rejects g name method apiIsThis st :
  (exists s m,
     name = VStr s /\ get (st_heap st) g "methods" = VObj m /\
     get (st_heap st) m s <> VUndef)
  \/ (forall s, name <> VStr s)
  \/ callable (st_heap st) method = false ->
  exists msg,
    add R g name method apiIsThis st =
      (Ret (VBool false),
       {| st_heap := st_heap st;
          st_trace := st_trace st ++ [EConsoleError [VStr msg; name; method; VObj g]] |}).
Proof. apply add_fails. Qed.

(** A successful [add]: what it returns and what it leaves behind,
    the two flags on the function object and the entry in [methods]. *)
Lemma add_registers g m name f apiIsThis st :
  own (st_heap st) g "methods" = Some (VObj m) ->
  g <> m ->
  code_of (st_heap st) m = None ->
  is_Some (st_heap st !! m) ->
  callable (st_heap st) (VObj f) = true ->
  get (st_heap st) m name = VUndef ->
  let b := if is_undefined apiIsThis then VBool false else apiIsThis in
  let h' := set_own (set_own (set_own (st_heap st) f "_run_init" (VBool false))
                             f "_this_api" b) m name (VObj f) in
  add R g (VStr name) (VObj f) apiIsThis st
    = (Ret (VBool true), {| st_heap := h'; st_trace := st_trace st |})
  /\ registered h' g m name f
  /\ own h' f "_run_init" = Some (VBool false)
  /\ own h' f "_this_api" = Some b.
Proof.
  intros Hm Hgm Hk Hal Hc Hfree b h'.
  assert (m <> f) as Hmf.
  { intros ->. apply callable_code in Hc as (? & c & [= <-] & Hc). congruence. }
  destruct (callable_alloc _ _ Hc) as [o Ho].
  split; [|split; [|split]].
  - unfold add, bind, read, get_member, set_member, modify. simpl.
    rewrite typeof_F, Hc. simpl. rewrite (own_get _ _ _ _ Hm). simpl.
    rewrite Hfree. simpl.
    rewrite !get_set_own_key by done. by rewrite (own_get _ _ _ _ Hm).
  - subst h'. unfold registered.
    rewrite code_of_set_own, !code_of_set_own, !callable_set_own.
    repeat split; try done.
    + apply own_get. rewrite own_set_own_other by (by left).
      by rewrite !own_set_own_other by (by right).
    + apply own_set_own_same. destruct Hal as [om Hom].
      rewrite !lookup_set_own, Hom. by eexists.
  - subst h'. rewrite own_set_own_other by (by left).
    rewrite own_set_own_other by (by right).
    apply own_set_own_same. by eexists.
  - subst h'. rewrite own_set_own_other by (by left).
    apply own_set_own_same. rewrite lookup_set_own, Ho. by eexists.
Qed.

(** The second of two [add] calls for a name is rejected with a line
    on [console.error], and the function of the first stays
    registered, its flags as the first call set them. *)
Lemma add_twice g m name f method2 apiIsThis apiIsThis2 st :
  own (st_heap st) g "methods" = Some (VObj m) ->
  g <> m ->
  code_of (st_heap st) m = None ->
  is_Some (st_heap st !! m) ->
  callable (st_heap st) (VObj f) = true ->
  get (st_heap st) m name = VUndef ->
  exists st1 msg,
    add R g (VStr name) (VObj f) apiIsThis st = (Ret (VBool true), st1)
    /\ add R g (VStr name) method2 apiIsThis2 st1 =
         (Ret (VBool false),
          {| st_heap := st_heap st1;
             st_trace := st_trace st1 ++
               [EConsoleError [VStr msg; VStr name; method2; VObj g]] |})
    /\ registered (st_heap st1) g m name f.
Proof.
  intros Hm Hgm Hk Hal Hc Hfree.
  destruct (add_registers g m name f apiIsThis st Hm Hgm Hk Hal Hc Hfree)
    as (Hadd & Hreg & _).
  eexists. edestruct (add_fails g (VStr name) method2 apiIsThis2) as [msg Hmsg];
    [|exists msg; split; [exact Hadd|split; [exact Hmsg|exact Hreg]]].
  left. exists name, m. destruct Hreg as (Hm' & _ & Ho & _).
  simpl. split; [done|]. split; [done|]. by rewrite (own_get _ _ _ _ Ho).
Qed.

End WithRealm.

Import Example.

(** What the host functions of [R0] leave in place. *)
Lemma R0_keeps_registered g m name f :
  name <> "ready" -> keeps R0 (fun h => registered h g m name f).
Proof.
  intros Hn fid this args h (Hm & Hk & Ho & Hc). simpl.
  destruct (Nat.eqb fid 6); simpl; [|done].
  unfold registered.
  rewrite get_set_own_key, code_of_set_own, callable_set_own by done.
  by rewrite own_set_own_other by (by right).
Qed.

Lemma R0_keeps_has_run f : keeps R0 (fun h => has_run h f).
Proof.
  intros fid this args h H. simpl.
  destruct (Nat.eqb fid 6); simpl; [|done].
  unfold has_run. by rewrite get_set_own_key.
Qed.

Lemma R0_untouched ls : ~ In model ls -> untouched R0 ls.
Proof.
  intros Hn fid this args h l Hl. simpl.
  destruct (Nat.eqb fid 6); simpl; [|done].
  apply lookup_set_own_other. intros <-. by apply Hn.
Qed.

Lemma R0_returns : returns R0.
Proof.
  intros fid this args h. simpl. destruct (Nat.eqb fid 6); eexists; reflexivity.
Qed.

(** On the group of [st_named]: after [need("alpha", null)], whose
    initialiser returns [false], every later [need("alpha", ...)]
    returns [true], and the trace shows one invocation. *)
Lemma need_idempotent_witness :
  (forall calls conf2,
     let st2 := needs R0 0 group calls
                  (snd (need R0 0 group (VStr "alpha") VNull st_named)) in
     need R0 0 group (VStr "alpha") conf2 st2 = (Ret (VBool true), st2))
  /\ (forall confs,
        invocations init_f
          (st_trace (needs R0 0 group (map (fun c => (VStr "alpha", c)) confs)
                       (snd (need R0 0 group (VStr "alpha") VNull st_named))))
        = 1).
Proof.
  destruct (need_idempotent R0 group methods "alpha" init_f
              (R0_keeps_registered group methods "alpha" init_f ltac:(discriminate))
              (R0_keeps_has_run init_f)
              0 st_named VNull (VBool false)
              (snd (need R0 0 group (VStr "alpha") VNull st_named))) as [H1 H2].
  - repeat split; vm_compute; reflexivity.
  - vm_compute. reflexivity.
  - split; [exact H1|]. intros confs. apply H2.
    + vm_compute. reflexivity.
    + exists 6. vm_compute. reflexivity.
Defined.

(** On the group of [st_named]: [run("conf")] invokes the initialiser
    of "alpha", which returns [false], and then that of "beta". *)
Lemma run_invokes_each_witness :
  exists st',
    run R0 0 group (VStr "conf") st_named = (Ret VUndef, st')
    /\ st_trace st' = st_trace st_named ++
         [ECall init_f (VObj group) [VStr "conf"]; ECall init_g (VObj group) [VStr "conf"]]
    /\ Forall (fun i => own (st_heap st') (i_fn i) "_run_init" = Some (VBool true))
         inits_named.
Proof.
  apply (run_invokes_each R0 group methods VNull inits_named
           (R0_untouched (group :: methods :: map i_fn inits_named)
              ltac:(vm_compute; intuition discriminate)) R0_returns
           0 st_named (VStr "conf")).
  - vm_compute. reflexivity.
  - vm_compute. reflexivity.
  - vm_compute. reflexivity.
  - vm_compute. reflexivity.
  - apply NoDup_cons. split; [|apply NoDup_singleton].
    intros H. apply list_elem_of_In in H. simpl in H. destruct H as [H|[]]. discriminate H.
  - repeat constructor; vm_compute; reflexivity.
Defined.

(** "2" is registered before "1", and [run] invokes the function of
    "1" before that of "2". *)
Lemma run_registration_order_counterexample :
  registration_order (st_heap st_numeric) methods = [VObj init_f; VObj init_g]
  /\ invoked (st_trace (snd (run R0 0 group VNull st_numeric)))
     = [VObj init_g; VObj init_f]
  /\ invoked (st_trace (snd (run R0 0 group VNull st_numeric)))
     <> registration_order (st_heap st_numeric) methods.
Proof.
  split; [|split].
  - vm_compute. reflexivity.
  - vm_compute. reflexivity.
  - vm_compute. discriminate.
Qed.

(** On the group of [st_api], whose [api] is the model and whose
    initialiser was added with [apiIsThis = true], the receiver is the
    model; on the group of [st_named], which has no api, it is the
    group. *)
Lemma need_invokes_unrun_witness :
  (need R0 0 group (VStr "alpha") (VStr "conf") st_api =
     (Ret (VBool false),
      {| st_heap := set_own (set_own (st_heap st_api) model "ready" (VBool true))
                      init_f "_run_init" (VBool true);
         st_trace := [ECall init_f (VObj model) [VStr "conf"]] |})
   /\ get (set_own (set_own (st_heap st_api) model "ready" (VBool true))
             init_f "_run_init" (VBool true)) init_f "_run_init"
      = VBool true)
  /\ (need R0 0 group (VStr "beta") (VStr "conf") st_named =
        (Ret (VNum 7),
         {| st_heap := set_own (st_heap st_named) init_g "_run_init" (VBool true);
            st_trace := [ECall init_g (VObj group) [VStr "conf"]] |})
      /\ get (set_own (st_heap st_named) init_g "_run_init" (VBool true))
            init_g "_run_init"
         = VBool true).
Proof.
  split.
  - apply (need_invokes_unrun R0 0 group methods "alpha" init_f (VStr "conf") st_api
             (VBool false)
             {| st_heap := set_own (st_heap st_api) model "ready" (VBool true);
                st_trace := [ECall init_f (VObj model) [VStr "conf"]] |}).
    + vm_compute; reflexivity.
    + vm_compute; reflexivity.
    + vm_compute; reflexivity.
    + vm_compute; reflexivity.
    + vm_compute; reflexivity.
    + vm_compute. eexists. reflexivity.
  - apply (need_invokes_unrun R0 0 group methods "beta" init_g (VStr "conf") st_named
             (VNum 7)
             {| st_heap := st_heap st_named;
                st_trace := [ECall init_g (VObj group) [VStr "conf"]] |}).
    + vm_compute; reflexivity.
    + vm_compute; reflexivity.
    + vm_compute; reflexivity.
    + vm_compute; reflexivity.
    + vm_compute; reflexivity.
    + vm_compute. eexists. reflexivity.
Defined.

(** Two groups on which the receiver is the group although the
    initialiser was registered with [apiIsThis = true] and the api is
    not [null]. In [st_zero_api] the api is [0]. In [st_rebound] the
    api is the model, and the function registered under "alpha" has
    since been added under "beta" with the default [apiIsThis], which
    has overwritten its flag. *)
Lemma need_receiver_counterexample :
  (get (st_heap Scenes.st_zero_api) group "api" = VNum 0
   /\ get (st_heap Scenes.st_zero_api) init_f "_this_api" = VBool true
   /\ need R0 0 group (VStr "alpha") (VStr "conf") Scenes.st_zero_api =
        (Ret (VBool false),
         {| st_heap := set_own (set_own (st_heap Scenes.st_zero_api) model "ready"
                                  (VBool true))
                         init_f "_run_init" (VBool true);
            st_trace := [ECall init_f (VObj group) [VStr "conf"]] |}))
  /\ (get (st_heap Scenes.st_rebound) group "api" = VObj model
      /\ own (st_heap Scenes.st_rebound) methods "alpha" = Some (VObj init_f)
      /\ get (st_heap Scenes.st_rebound) init_f "_this_api" = VBool false
      /\ need R0 0 group (VStr "alpha") (VStr "conf") Scenes.st_rebound =
           (Ret (VBool false),
            {| st_heap := set_own (set_own (st_heap Scenes.st_rebound) model "ready"
                                     (VBool true))
                            init_f "_run_init" (VBool true);
               st_trace := [ECall init_f (VObj group) [VStr "conf"]] |})).
Proof. repeat split; vm_compute; reflexivity. Qed.

(** An initialiser that throws ends [run]: under [R1] the function of
    "alpha" throws, and that of "beta" is not reached. *)
Example run_stops_at_exception :
  run R1 0 group (VStr "conf") st_named =
    (Throw (Thrown (VStr "boom")),
     {| st_heap := st_heap st_named;
        st_trace := [ECall init_f (VObj group) [VStr "conf"]] |}).
Proof. vm_compute. reflexivity. Qed.

(** On the group of [st_named]: a second [add] for "alpha". *)
Lemma add_rejects_witness :
  exists msg,
    add R0 group (VStr "alpha") (VObj init_g) VUndef st_named =
      (Ret (VBool false),
       {| st_heap := st_heap st_named;
          st_trace := st_trace st_named ++
            [EConsoleError [VStr msg; VStr "alpha"; VObj init_g; VObj group]] |}).
Proof.
  apply (add_rejects R0 group (VStr "alpha") (VObj init_g) VUndef st_named).
  left. exists "alpha", methods. split; [reflexivity|]. split.
  - vm_compute. reflexivity.
  - vm_compute. discriminate.
Defined.
End InitGroupSpec.

(** ** Extension *)
Module ExtensionSpec.
Import JS JSFacts Extension.
Local Open Scope list_scope.
Local Open Scope js_scope.

#[local] Arguments get : simpl never.
#[local] Arguments set_own : simpl never.
#[local] Arguments callable : simpl never.
#[local] Arguments typeof : simpl never.
#[local] Arguments call : simpl never.
#[local] Arguments enum_keys : simpl never.
#[local] Arguments has_property : simpl never.
#[local] Arguments instanceof : simpl never.
#[local] Arguments to_string : simpl never.
#[local] Arguments String.eqb : simpl never.

Section WithRealm.
Variable R : realm.

Lemma call_not_callable fuel f this args st :
  callable (st_heap st) f = false ->
  call R fuel f this args st = (Throw TypeError, st).
Proof.
  intros H. destruct f as [| | | | |l]; try by destruct fuel.
  assert (code_of (st_heap st) l = None) as Hc.
  { unfold callable in H. unfold code_of.
    destruct (st_heap st !! l) as [[? [] ?]|]; done. }
  destruct fuel; unfold call; by rewrite Hc.
Qed.

(** Calling a forwarder is calling the extension's method, found under
    [srcName] at the time of the call, with the captured receiver and
    the same arguments; only the returned value is replaced by
    [undefined]. *)
Lemma call_forwarder fuel c ext srcName applyThis this args st :
  code_of (st_heap st) c = Some (CForwarder ext srcName applyThis) ->
  call R (Datatypes.S fuel) (VObj c) this args st =
    discard (call R fuel (get (st_heap st) ext (to_string R (st_heap st) srcName))
               applyThis args st).
Proof.
  intros H. unfold call at 1; fold call. rewrite H.
  unfold forwarder_body, bind, read, get_member. simpl.
  destruct (callable (st_heap st) _) eqn:Hc.
  - by destruct (call R fuel _ applyThis args st) as [[?| |] ?].
  - by rewrite call_not_callable.
Qed.

(** The evaluation of [addHandledMethod] on an extension whose
    [parent] is an object. *)
Lemma addHandledMethod_eval ext p srcName destName modelIsThis canReplace st :
  get (st_heap st) ext "parent" = VObj p ->
  let h := st_heap st in
  let srcKey := to_string R h srcName in
  let destKey := to_string R h (if truthy destName then destName else srcName) in
  let closure :=
    {| o_proto := Some (Function_prototype R);
       o_kind := KFunction (CForwarder ext srcName
                              (if truthy modelIsThis then VObj p else VObj ext));
       o_props := [] |} in
  addHandledMethod R ext srcName destName modelIsThis canReplace st =
    if callable h (get h ext srcKey) then
      if truthy canReplace || is_undefined (get h p destKey) then
        (Ret VUndef,
         {| st_heap := set_own (h ++ [closure]) p destKey (VObj (length h));
            st_trace := st_trace st |})
      else (Throw (Error (destKey ++ " was already defined in the Model")%string), st)
    else (Throw (Error (srcKey ++ " method not found in the Extension")%string), st).
Proof.
  intros Hp h srcKey destKey closure. subst h srcKey destKey closure.
  unfold addHandledMethod, bind, read, get_member, set_member, alloc, modify. simpl.
  rewrite typeof_F.
  destruct (callable _ (get _ ext _)); simpl; [|done].
  destruct (truthy canReplace); simpl.
  - destruct (truthy modelIsThis); unfold read, ret; simpl; by rewrite !Hp.
  - rewrite Hp. simpl.
    destruct (is_undefined (get _ p _)); simpl; [|done].
    destruct (truthy modelIsThis); unfold read, ret; simpl; by rewrite !Hp.
Qed.

(** After the installation the parent holds the closure under the
    destination key. *)
Lemma install_facts (h : heap) p k closure :
  is_Some (h !! p) ->
  let h' := set_own (h ++ [closure]) p k (VObj (length h)) in
  get h' p k = VObj (length h)
  /\ code_of h' (length h) = match o_kind closure with
                             | KFunction c => Some c
                             | _ => None
                             end.
Proof.
  intros [o Ho] h'. subst h'. split.
  - apply get_set_own_same. exists o. by apply lookup_app_l_Some.
  - rewrite code_of_set_own. apply code_of_lookup.
    exact (list_lookup_middle h [] closure (length h) eq_refl).
Qed.

(** The errors of [addHandledMethod]. On an extension whose [parent]
    is an object, [addHandledMethod] throws in exactly two cases, and then
    leaves heap and trace as they were: when [this[srcName]] is not
    callable (the message names [srcName]), and when [canReplace] is
    falsy and [parent[destName]], own or inherited, is not [undefined]
    (the message names [destName]). In every other case it returns. *)
Theorem addHandledMethod_errors ext p srcName destName modelIsThis canReplace st :
  get (st_heap st) ext "parent" = VObj p ->
  let h := st_heap st in
  let srcKey := to_string R h srcName in
  let destKey := to_string R h (if truthy destName then destName else srcName) in
  let no_source := negb (callable h (get h ext srcKey)) in
  let clash := negb (truthy canReplace) && negb (is_undefined (get h p destKey)) in
  (no_source = true ->
     addHandledMethod R ext srcName destName modelIsThis canReplace st =
       (Throw (Error (srcKey ++ " method not found in the Extension")%string), st))
  /\ (no_source = false -> clash = true ->
        addHandledMethod R ext srcName destName modelIsThis canReplace st =
          (Throw (Error (destKey ++ " was already defined in the Model")%string), st))
  /\ (no_source = false -> clash = false ->
        exists st1,
          addHandledMethod R ext srcName destName modelIsThis canReplace st =
            (Ret VUndef, st1)).
Proof.
  intros Hp h srcKey destKey no_source clash.
  rewrite (addHandledMethod_eval _ _ _ _ _ _ _ Hp).
  fold h srcKey destKey. subst no_source clash.
  destruct (callable h (get h ext srcKey)); simpl; [|by repeat split].
  destruct (truthy canReplace); simpl.
  - repeat split; try done. intros _ _. by eexists.
  - destruct (is_undefined (get h p destKey)); simpl.
    + repeat split; try done. intros _ _. by eexists.
    + by repeat split.
Qed.

(** C6, where the code departs from it and from its own documentation
    of [canReplace] (lines 53-55: "If falsey, we will throw and Error
    if a property/method already exists"). The test of line 65 is
    [this.parent[destName] === undefined]: a property of the parent
    that exists, own or inherited, and holds [undefined] does not make
    [addHandledMethod] throw when [canReplace] is falsy. The call
    returns, and the parent then has the closure as its own property
    under that name. *)
Theorem existing_undefined_is_replaced
    ext p srcName destName modelIsThis canReplace st :
  get (st_heap st) ext "parent" = VObj p ->
  let h := st_heap st in
  let destKey := to_string R h (if truthy destName then destName else srcName) in
  callable h (get h ext (to_string R h srcName)) = true ->
  truthy canReplace = false ->
  has_property h p destKey = true ->
  get h p destKey = VUndef ->
  exists st1 c,
    addHandledMethod R ext srcName destName modelIsThis canReplace st = (Ret VUndef, st1)
    /\ st_heap st !! c = None
    /\ own (st_heap st1) p destKey = Some (VObj c)
    /\ code_of (st_heap st1) c =
         Some (CForwarder ext srcName (if truthy modelIsThis then VObj p else VObj ext)).
Proof.
  intros Hp h destKey Hsrc Hcr Hhas Hundef.
  assert (is_Some (h !! p)) as Hal.
  { unfold has_property in Hhas. simpl in Hhas.
    destruct (h !! p); [by eexists | done]. }
  rewrite (addHandledMethod_eval _ _ _ _ _ _ _ Hp).
  fold h destKey. rewrite Hsrc, Hcr, Hundef. simpl.
  exists {| st_heap := set_own (h ++ [ {| o_proto := Some (Function_prototype R);
                                         o_kind := KFunction
                                           (CForwarder ext srcName
                                              (if truthy modelIsThis then VObj p
                                               else VObj ext));
                                         o_props := [] |} ]) p destKey (VObj (length h));
            st_trace := st_trace st |}, (length h).
  split; [done|]. split; [by apply lookup_ge_None_2|]. simpl.
  edestruct (install_facts h p destKey) as [Hget Hlook]; [done|].
  split; [|exact Hlook].
  apply own_set_own_same. destruct Hal as [o Ho]. exists o. by apply lookup_app_l_Some.
Qed.

(** C7, as the code has it. After [addHandledMethod] has returned,
    [parent[destName]] is a closure; calling it, at any later time, with
    any receiver and any arguments, is calling the extension's
    [srcName] method with those arguments and with the parent as
    receiver when [modelIsThis] is truthy, the extension otherwise:
    same effects on heap and trace, same exception or divergence. A
    value the method returns is not passed on; the closure returns
    [undefined]. *)
Theorem forwarder_forwards ext p srcName destName modelIsThis canReplace st r st1 :
  get (st_heap st) ext "parent" = VObj p ->
  is_Some (st_heap st !! p) ->
  addHandledMethod R ext srcName destName modelIsThis canReplace st = (Ret r, st1) ->
  let destKey :=
    to_string R (st_heap st) (if truthy destName then destName else srcName) in
  let applyThis := if truthy modelIsThis then VObj p else VObj ext in
  exists c,
    get (st_heap st1) p destKey = VObj c
    /\ code_of (st_heap st1) c = Some (CForwarder ext srcName applyThis)
    /\ forall st2,
         code_of (st_heap st2) c = Some (CForwarder ext srcName applyThis) ->
         forall fuel this args,
           call R (Datatypes.S fuel) (VObj c) this args st2 =
             discard (call R fuel
                        (get (st_heap st2) ext (to_string R (st_heap st2) srcName))
                        applyThis args st2).
Proof.
  intros Hp Hal Hadd destKey applyThis. subst destKey applyThis.
  rewrite (addHandledMethod_eval _ _ _ _ _ _ _ Hp) in Hadd.
  destruct (callable _ _); [|done].
  destruct (_ || _); [|done]. simplify_eq.
  exists (length (st_heap st)). simpl.
  edestruct (install_facts (st_heap st) p) as [Hget Hlook]; [done|].
  split; [exact Hget|]. split.
  - exact Hlook.
  - intros st2 Hc fuel this args. by apply call_forwarder.
Qed.

(** C9. A closure installed by [addHandledMethod] returns nothing but
    [undefined]: whenever a call of it returns, the value is
    [undefined]; and whenever the extension's method returns a value,
    the closure returns, with that value dropped. *)
Theorem forwarder_returns_undefined
    ext p srcName destName modelIsThis canReplace st r st1 :
  get (st_heap st) ext "parent" = VObj p ->
  is_Some (st_heap st !! p) ->
  addHandledMethod R ext srcName destName modelIsThis canReplace st = (Ret r, st1) ->
  let destKey :=
    to_string R (st_heap st) (if truthy destName then destName else srcName) in
  let applyThis := if truthy modelIsThis then VObj p else VObj ext in
  exists c,
    get (st_heap st1) p destKey = VObj c
    /\ code_of (st_heap st1) c = Some (CForwarder ext srcName applyThis)
    /\ forall st2,
         code_of (st_heap st2) c = Some (CForwarder ext srcName applyThis) ->
         forall this args,
           (forall fuel v st3,
              call R fuel (VObj c) this args st2 = (Ret v, st3) -> v = VUndef)
           /\ (forall fuel v0 st3,
                 call R fuel
                   (get (st_heap st2) ext (to_string R (st_heap st2) srcName))
                   applyThis args st2 = (Ret v0, st3) ->
                 call R (Datatypes.S fuel) (VObj c) this args st2 = (Ret VUndef, st3)).
Proof.
  intros Hp Hal Hadd destKey applyThis. subst destKey applyThis.
  rewrite (addHandledMethod_eval _ _ _ _ _ _ _ Hp) in Hadd.
  destruct (callable _ _); [|done].
  destruct (_ || _); [|done]. simplify_eq.
  exists (length (st_heap st)). simpl.
  edestruct (install_facts (st_heap st) p) as [Hget Hlook]; [done|].
  split; [exact Hget|]. split.
  - exact Hlook.
  - intros st2 Hc this args. split.
    + intros [|fuel] v st3 Hcall.
      * unfold call in Hcall. by rewrite Hc in Hcall.
      * rewrite (call_forwarder _ _ _ _ _ _ _ _ Hc) in Hcall.
        destruct (call R fuel _ _ args st2) as [[?| |] ?];
          simpl in Hcall; by simplify_eq.
    + intros fuel v0 st3 Hcall.
      by rewrite (call_forwarder _ _ _ _ _ _ _ _ Hc), Hcall.
Qed.

(** C10. With a callable source and a falsy [canReplace], the
    destination check of [addHandledMethod] looks at the value of
    [parent[destName]] and not at whether the property exists: an own
    property holding [undefined] and an absent property alike let the
    installation proceed without error, and a value other than
    [undefined], be it the parent's own or inherited from its
    prototype, makes it throw. *)
Theorem collision_check_compares_with_undefined
    ext p srcName destName modelIsThis canReplace st :
  get (st_heap st) ext "parent" = VObj p ->
  is_Some (st_heap st !! p) ->
  let h := st_heap st in
  let destKey := to_string R h (if truthy destName then destName else srcName) in
  callable h (get h ext (to_string R h srcName)) = true ->
  truthy canReplace = false ->
  (own h p destKey = Some VUndef \/ has_property h p destKey = false ->
     exists st1 c,
       addHandledMethod R ext srcName destName modelIsThis canReplace st
         = (Ret VUndef, st1)
       /\ get (st_heap st1) p destKey = VObj c /\ callable (st_heap st1) (VObj c) = true)
  /\ (forall v,
        v <> VUndef ->
        own h p destKey = Some v
        \/ (exists o q, h !! p = Some o /\ lookup_prop destKey (o_props o) = None /\
                        o_proto o = Some q /\ own h q destKey = Some v)
        \/ get h p destKey = v ->
        addHandledMethod R ext srcName destName modelIsThis canReplace st =
          (Throw (Error (destKey ++ " was already defined in the Model")%string), st)).
Proof.
  intros Hp Hal h destKey Hsrc Hcr.
  rewrite (addHandledMethod_eval _ _ _ _ _ _ _ Hp).
  fold h destKey. rewrite Hsrc, Hcr. simpl. split.
  - intros Hundef.
    assert (get h p destKey = VUndef) as ->.
    { destruct Hundef as [H|H]; [by apply own_get | by apply absent_get]. }
    simpl. do 2 eexists. split; [done|]. simpl.
    edestruct (install_facts h p destKey) as [Hget Hlook]; [done|].
    split; [exact Hget|]. apply callable_code.
    do 2 eexists. split; [done|]. exact Hlook.
  - intros v Hv Hcase.
    assert (get h p destKey = v) as ->.
    { destruct Hcase as [H|[(o & q & H1 & H2 & H3 & H4)|H]];
        [by apply own_get | by eapply inherited_get | done]. }
    by destruct v.
Qed.

(** C5. The constructor throws on an argument that is not an instance
    of Model and then leaves heap and trace as they were: [parent] is
    not set and nothing is called. On an instance of Model it stores it
    under [parent]; if [this.setup] is callable then it calls it, with
    the extension as receiver and the instance as only argument, and
    the construction completes when and as that call does; if not, it
    returns at once. *)
Theorem constructor_checks_parent fuel this apiInstance st :
  is_Some (st_heap st !! this) ->
  let st1 := {| st_heap := set_own (st_heap st) this "parent" apiInstance;
                st_trace := st_trace st |} in
  let setup := get (st_heap st1) this "setup" in
  (instanceof (st_heap st) apiInstance (Model_prototype R) = false ->
     constructor R fuel this apiInstance st =
       (Throw (Error "Extension must be passed it's parent Model"), st))
  /\ (instanceof (st_heap st) apiInstance (Model_prototype R) = true ->
        get (st_heap st1) this "parent" = apiInstance
        /\ (callable (st_heap st1) setup = true ->
              constructor R fuel this apiInstance st =
                match call R fuel setup (VObj this) [apiInstance] st1 with
                | (Ret _, st2) => (Ret tt, st2)
                | (Throw e, st2) => (Throw e, st2)
                | (Diverge, st2) => (Diverge, st2)
                end)
        /\ (callable (st_heap st1) setup = false ->
              constructor R fuel this apiInstance st = (Ret tt, st1))).
Proof.
  intros Hal st1 setup. subst st1 setup. simpl. split; intros Hinst.
  - unfold constructor, bind, read. simpl. by rewrite Hinst.
  - split; [by apply get_set_own_same|].
    unfold constructor, bind, read, set_member, get_member, modify. simpl.
    rewrite Hinst. simpl. rewrite typeof_F.
    split; intros Hc; rewrite Hc; simpl; [|done].
    by destruct (call R fuel _ (VObj this) [apiInstance] _) as [[?| |] ?].
Qed.

(** C8, the case that the code misses. [null] is not an object, yet
    [typeof null] is ["object"]: [addHandledMethods(null)] enters the
    object branch, enumerates nothing, and returns without a word on
    [console.error]. *)
Theorem addHandledMethods_null_is_silent ext st :
  addHandledMethods R ext VNull st = (Ret VUndef, st).
Proof. done. Qed.

(** The other non-objects are reported, and nothing is registered. *)
Lemma addHandledMethods_non_object ext v st :
  typeof (st_heap st) v <> types.O ->
  addHandledMethods R ext v st =
    (Ret VUndef,
     {| st_heap := st_heap st;
        st_trace := st_trace st ++
          [EConsoleError [VStr "Non-object sent to addHandledMethods()"; v]] |}).
Proof.
  intros H. unfold addHandledMethods, bind, read. simpl.
  apply String.eqb_neq in H. by rewrite H.
Qed.

(** A string value is the destination name, a boolean value is
    [modelIsThis], an object value supplies the three options. *)
Lemma mapping_entry_forms ext mapping srcName st :
  (forall s, get (st_heap st) mapping srcName = VStr s ->
     mapping_entry R ext (VObj mapping) srcName st =
       addHandledMethod R ext (VStr srcName) (VStr s) VUndef VUndef st)
  /\ (forall b, get (st_heap st) mapping srcName = VBool b ->
        mapping_entry R ext (VObj mapping) srcName st =
          addHandledMethod R ext (VStr srcName) VNull (VBool b) VUndef st)
  /\ (forall o, get (st_heap st) mapping srcName = VObj o ->
        callable (st_heap st) (VObj o) = false ->
        mapping_entry R ext (VObj mapping) srcName st =
          addHandledMethod R ext (VStr srcName)
            (get (st_heap st) o "destName") (get (st_heap st) o "modelIsThis")
            (get (st_heap st) o "canReplace") st).
Proof.
  unfold mapping_entry, bind, read, get_member. simpl.
  split; [|split].
  - by intros s ->.
  - by intros b ->.
  - intros o -> Hc. unfold typeof. by rewrite Hc.
Qed.


(** The two loops of [addHandledMethods] are loops over
    [array_entry] and [mapping_entry]. *)
Lemma addHandledMethods_loops ext v st :
  typeof (st_heap st) v = types.O ->
  addHandledMethods R ext v st =
    ((if isArray (st_heap st) v
      then for_in R v (array_entry R ext v)
      else for_in R v (mapping_entry R ext v)) ;;; ret VUndef) st.
Proof.
  intros H. unfold addHandledMethods, bind at 1, read. simpl. rewrite H.
  unfold bind at 1. simpl. by destruct (isArray (st_heap st) v).
Qed.

End WithRealm.

Import Example.

(** On the extension of [st_ext]: no method [nope]; [save] is defined
    on the model's prototype; [store] is free; [canReplace] allows
    [save]. *)
Lemma addHandledMethod_errors_witness :
  addHandledMethod R0 ext (VStr "nope") VUndef VUndef VUndef st_ext =
    (Throw (Error "nope method not found in the Extension"), st_ext)
  /\ addHandledMethod R0 ext (VStr "save") VUndef VUndef VUndef st_ext =
       (Throw (Error "save was already defined in the Model"), st_ext)
  /\ (exists st1,
        addHandledMethod R0 ext (VStr "save") (VStr "store") VUndef VUndef st_ext =
          (Ret VUndef, st1))
  /\ (exists st1,
        addHandledMethod R0 ext (VStr "save") VUndef VUndef (VBool true) st_ext =
          (Ret VUndef, st1)).
Proof.
  assert (get (st_heap st_ext) ext "parent" = VObj model) as Hp
    by (vm_compute; reflexivity).
  split; [|split; [|split]].
  - apply (addHandledMethod_errors R0 ext model (VStr "nope") VUndef VUndef VUndef
             st_ext Hp). vm_compute. reflexivity.
  - apply (addHandledMethod_errors R0 ext model (VStr "save") VUndef VUndef VUndef
             st_ext Hp); vm_compute; reflexivity.
  - apply (addHandledMethod_errors R0 ext model (VStr "save") (VStr "store") VUndef VUndef
             st_ext Hp); vm_compute; reflexivity.
  - apply (addHandledMethod_errors R0 ext model (VStr "save") VUndef VUndef (VBool true)
             st_ext Hp); vm_compute; reflexivity.
Defined.

(** The parent has the property [pending], [canReplace] is omitted,
    and yet no error is raised and the property is overwritten. *)
Lemma existing_destination_counterexample :
  has_property (st_heap st_ext) model "pending" = true
  /\ fst (addHandledMethod R0 ext (VStr "pending") VUndef VUndef VUndef st_ext)
     = Ret VUndef
  /\ own (st_heap st_ext) model "pending" = Some VUndef
  /\ own (st_heap (snd (addHandledMethod R0 ext (VStr "pending") VUndef VUndef VUndef
                          st_ext))) model "pending" = Some (VObj 13).
Proof. repeat split; vm_compute; reflexivity. Qed.

(** [ext.addHandledMethod("pending")] on [st_ext], where the model has
    the own property [pending], holding [undefined]. *)
Lemma existing_undefined_is_replaced_witness :
  exists st1 c,
    addHandledMethod R0 ext (VStr "pending") VUndef VUndef VUndef st_ext = (Ret VUndef, st1)
    /\ st_heap st_ext !! c = None
    /\ own (st_heap st1) model "pending" = Some (VObj c)
    /\ code_of (st_heap st1) c = Some (CForwarder ext (VStr "pending") (VObj ext)).
Proof.
  apply (existing_undefined_is_replaced R0 ext model (VStr "pending") VUndef VUndef VUndef
           st_ext).
  - vm_compute. reflexivity.
  - vm_compute. reflexivity.
  - reflexivity.
  - vm_compute. reflexivity.
  - vm_compute. reflexivity.
Defined.

(** The forwarder [model.foo] of [st_foo]. *)
Lemma forwarder_forwards_witness :
  exists c,
    get (st_heap st_foo) model "foo" = VObj c
    /\ code_of (st_heap st_foo) c = Some (CForwarder ext (VStr "foo") (VObj ext))
    /\ forall st2,
         code_of (st_heap st2) c = Some (CForwarder ext (VStr "foo") (VObj ext)) ->
         forall fuel this args,
           call R0 (Datatypes.S fuel) (VObj c) this args st2 =
             discard (call R0 fuel
                        (get (st_heap st2) ext (to_string R0 (st_heap st2) (VStr "foo")))
                        (VObj ext) args st2).
Proof.
  apply (forwarder_forwards R0 ext model (VStr "foo") VUndef VUndef VUndef st_ext
           VUndef st_foo).
  - vm_compute. reflexivity.
  - vm_compute. eexists. reflexivity.
  - vm_compute. reflexivity.
Defined.

(** [ext.foo(1, 2)] yields 10; [model.foo(1, 2)], the forwarder,
    yields [undefined]. *)
Lemma forwarder_result_counterexample :
  fst (call R0 1 (get (st_heap st_foo) ext "foo") (VObj ext) [VNum 1; VNum 2] st_foo)
  = Ret (VNum 10)
  /\ fst (call R0 1 (get (st_heap st_foo) model "foo") (VObj model) [VNum 1; VNum 2] st_foo)
     = Ret VUndef
  /\ snd (call R0 1 (get (st_heap st_foo) ext "foo") (VObj ext) [VNum 1; VNum 2] st_foo)
     = snd (call R0 1 (get (st_heap st_foo) model "foo") (VObj model) [VNum 1; VNum 2] st_foo).
Proof. repeat split; vm_compute; reflexivity. Qed.

(** The forwarder [model.foo] of [st_foo] returns [undefined]. *)
Lemma forwarder_returns_undefined_witness :
  exists c,
    get (st_heap st_foo) model "foo" = VObj c
    /\ code_of (st_heap st_foo) c = Some (CForwarder ext (VStr "foo") (VObj ext))
    /\ forall st2,
         code_of (st_heap st2) c = Some (CForwarder ext (VStr "foo") (VObj ext)) ->
         forall this args,
           (forall fuel v st3,
              call R0 fuel (VObj c) this args st2 = (Ret v, st3) -> v = VUndef)
           /\ (forall fuel v0 st3,
                 call R0 fuel
                   (get (st_heap st2) ext (to_string R0 (st_heap st2) (VStr "foo")))
                   (VObj ext) args st2 = (Ret v0, st3) ->
                 call R0 (Datatypes.S fuel) (VObj c) this args st2 = (Ret VUndef, st3)).
Proof.
  apply (forwarder_returns_undefined R0 ext model (VStr "foo") VUndef VUndef VUndef st_ext
           VUndef st_foo).
  - vm_compute. reflexivity.
  - vm_compute. eexists. reflexivity.
  - vm_compute. reflexivity.
Defined.

(** On the extension of [st_ext]: [model.pending] is an own property
    holding [undefined] and [model.foo] is absent, both are installed;
    [model.save] is inherited and [model.parent] of [st_own] is an own
    property holding 0, both are refused. *)
Lemma collision_check_witness :
  (exists st1 c,
     addHandledMethod R0 ext (VStr "pending") VUndef VUndef VUndef st_ext
       = (Ret VUndef, st1)
     /\ get (st_heap st1) model "pending" = VObj c
     /\ callable (st_heap st1) (VObj c) = true)
  /\ (exists st1 c,
        addHandledMethod R0 ext (VStr "foo") VUndef VUndef VUndef st_ext
          = (Ret VUndef, st1)
        /\ get (st_heap st1) model "foo" = VObj c
        /\ callable (st_heap st1) (VObj c) = true)
  /\ addHandledMethod R0 ext (VStr "save") VUndef VUndef VUndef st_ext =
       (Throw (Error "save was already defined in the Model"), st_ext)
  /\ addHandledMethod R0 ext (VStr "foo") (VStr "parent") VUndef VUndef
       st_own =
       (Throw (Error "parent was already defined in the Model"), st_own).
Proof.
  split; [|split; [|split]].
  - apply (collision_check_compares_with_undefined R0 ext model (VStr "pending")
             VUndef VUndef VUndef st_ext);
      try (vm_compute; reflexivity).
    + vm_compute. eexists. reflexivity.
    + left. vm_compute. reflexivity.
  - apply (collision_check_compares_with_undefined R0 ext model (VStr "foo")
             VUndef VUndef VUndef st_ext);
      try (vm_compute; reflexivity).
    + vm_compute. eexists. reflexivity.
    + right. vm_compute. reflexivity.
  - apply (collision_check_compares_with_undefined R0 ext model (VStr "save")
             VUndef VUndef VUndef st_ext) with (v := VObj save_fn);
      try (vm_compute; reflexivity).
    + vm_compute. eexists. reflexivity.
    + discriminate.
    + right. left. exists (obj (Some 2) KObject [("pending", field VUndef)]), 2.
      repeat split; vm_compute; reflexivity.
  - apply (collision_check_compares_with_undefined R0 ext model (VStr "foo")
             (VStr "parent") VUndef VUndef st_own) with (v := VNum 0);
      try (vm_compute; reflexivity).
    + vm_compute. eexists. reflexivity.
    + discriminate.
    + left. vm_compute. reflexivity.
Defined.

(** The group is not a Model: the constructor throws and changes
    nothing. The model is one: [parent] is set, and [setup] is called
    where the class has it. *)
Lemma constructor_checks_parent_witness :
  constructor R0 0 ext (VObj group) st0 =
    (Throw (Error "Extension must be passed it's parent Model"), st0)
  /\ get (st_heap st_ext) ext "parent" = VObj model
  /\ constructor R0 0 ext (VObj model) st0 =
       (Ret tt,
        {| st_heap := set_own (st_heap st0) ext "parent" (VObj model);
           st_trace := [ECall setup_fn (VObj ext) [VObj model]] |})
  /\ constructor R0 0 group (VObj model) st0 =
       (Ret tt,
        {| st_heap := set_own (st_heap st0) group "parent" (VObj model);
           st_trace := [] |}).
Proof.
  split; [|split; [|split]].
  - apply (constructor_checks_parent R0 0 ext (VObj group) st0).
    + vm_compute. eexists. reflexivity.
    + vm_compute. reflexivity.
  - apply (constructor_checks_parent R0 0 ext (VObj model) st0).
    + vm_compute. eexists. reflexivity.
    + vm_compute. reflexivity.
  - rewrite (proj1 (proj2 (proj2 (constructor_checks_parent R0 0 ext (VObj model) st0
               ltac:(vm_compute; eexists; reflexivity))
               ltac:(vm_compute; reflexivity))));
      vm_compute; reflexivity.
  - apply (constructor_checks_parent R0 0 group (VObj model) st0).
    + vm_compute. eexists. reflexivity.
    + vm_compute. reflexivity.
    + vm_compute. reflexivity.
Defined.

(** [ext.addHandledMethods(["foo", "pending"])] is
    [ext.addHandledMethod("foo")] followed by
    [ext.addHandledMethod("pending")]. *)
Example addHandledMethods_array :
  addHandledMethods R0 ext (VObj names) st_args =
    (addHandledMethod R0 ext (VStr "foo") VUndef VUndef VUndef ;;;
     addHandledMethod R0 ext (VStr "pending") VUndef VUndef VUndef ;;;
     ret VUndef) st_args.
Proof. vm_compute. reflexivity. Qed.

(** [ext.addHandledMethods({foo: "x", pending: true, save: {destName:
    "y", modelIsThis: true, canReplace: true}})] installs [model.x]
    forwarding to [foo] on the extension, [model.pending] forwarding to
    [pending] on the model, and [model.y] forwarding to [save] on the
    model. *)
Example addHandledMethods_mapping :
  let h' := st_heap (snd (addHandledMethods R0 ext (VObj mapping) st_args)) in
  fst (addHandledMethods R0 ext (VObj mapping) st_args) = Ret VUndef
  /\ (exists c, get h' model "x" = VObj c /\
         code_of h' c = Some (CForwarder ext (VStr "foo") (VObj ext)))
  /\ (exists c, get h' model "pending" = VObj c /\
         code_of h' c = Some (CForwarder ext (VStr "pending") (VObj model)))
  /\ (exists c, get h' model "y" = VObj c /\
         code_of h' c = Some (CForwarder ext (VStr "save") (VObj model))).
Proof.
  repeat split; try (eexists; split); vm_compute; reflexivity.
Qed.

End ExtensionSpec.

(** ** Loops *)
Module LoopFacts.
Import JS JSFacts.
Local Open Scope list_scope.
Local Open Scope js_scope.

#[local] Arguments has_property : simpl never.

Lemma for_each_cons k ks (body : string -> M unit) st :
  for_each (k :: ks) body st =
    match body k st with
    | (Ret _, st') => for_each ks body st'
    | (Throw e, st') => (Throw e, st')
    | (Diverge, st') => (Diverge, st')
    end.
Proof. simpl. unfold bind. by destruct (body k st) as [[[]| |] ?]. Qed.

Lemma for_each_app ks1 ks2 (body : string -> M unit) st :
  for_each (ks1 ++ ks2) body st =
    match for_each ks1 body st with
    | (Ret _, st') => for_each ks2 body st'
    | other => other
    end.
Proof.
  revert st. induction ks1 as [|k ks1 IH]; intros st; simpl; [done|].
  unfold bind. by destruct (body k st) as [[[]| |] st1].
Qed.

(** One turn of a [for-in] loop on a key that is still there. *)
Lemma for_in_turn {A} (body : string -> M A) l k st :
  has_property (st_heap st) l k = true ->
  (present <- read (fun h => still_has h (VObj l) k) ;;
   if present then body k ;;; ret tt else ret tt) st =
    match body k st with
    | (Ret _, st') => (Ret tt, st')
    | (Throw e, st') => (Throw e, st')
    | (Diverge, st') => (Diverge, st')
    end.
Proof.
  intros H. unfold bind, read. simpl. rewrite H.
  by destruct (body k st) as [[?| |] ?].
Qed.

Lemma for_each_frame (P : heap -> Prop) (body : string -> M unit) :
  (forall k st, P (st_heap st) -> P (st_heap (snd (body k st)))) ->
  forall ks st, P (st_heap st) -> P (st_heap (snd (for_each ks body st))).
Proof.
  intros Hb ks. induction ks as [|k ks IH]; intros st HP; [done|].
  simpl. unfold bind. specialize (Hb k st HP).
  destruct (body k st) as [[[]| |] st1]; simpl in *; try done. by apply IH.
Qed.

End LoopFacts.


(** ** InitGroup: further properties *)
Module InitGroupMore.
Import JS JSFacts LoopFacts InitGroup Usage InitGroupSpec.
Local Open Scope list_scope.
Local Open Scope js_scope.

#[local] Arguments get : simpl never.
#[local] Arguments set_own : simpl never.
#[local] Arguments callable : simpl never.
#[local] Arguments typeof : simpl never.
#[local] Arguments call : simpl never.
#[local] Arguments enum_keys : simpl never.
#[local] Arguments has_property : simpl never.
#[local] Arguments String.eqb : simpl never.

Section WithRealm.
Variable R : realm.

(** X1. [need] on a name under which [methods] holds nothing callable: in
    particular a name that is nowhere on its prototype chain. One line
    goes to [console.error], [false] is returned, the heap stays. *)
Theorem need_missing_name fuel g m name conf st :
  get (st_heap st) g "methods" = VObj m ->
  has_property (st_heap st) m (to_string R (st_heap st) name) = false
  \/ callable (st_heap st) (get (st_heap st) m (to_string R (st_heap st) name)) = false ->
  need R fuel g name conf st =
    (Ret (VBool false),
     {| st_heap := st_heap st;
        st_trace := st_trace st ++
          [EConsoleError [VStr "invalid init method requested"; name; VObj g; conf]] |}).
Proof.
  intros Hm Hno.
  assert (callable (st_heap st) (get (st_heap st) m (to_string R (st_heap st) name))
          = false) as Hc.
  { destruct Hno as [H|H]; [|done]. by rewrite (absent_get _ _ _ H). }
  unfold need, bind, read, get_member, console_error, emit. simpl.
  rewrite Hm. simpl. by rewrite typeof_F, Hc.
Qed.

(** X2. [need] looks the name up along the prototype chain of [methods]:
    a name that was never registered, but under which the prototype
    holds a host function, has that function invoked, with the group as
    receiver when the function has no [_this_api], and marked. *)
Theorem need_inherited_name fuel g m om q name f fid conf st r h1 :
  get (st_heap st) g "methods" = VObj m ->
  st_heap st !! m = Some om ->
  lookup_prop name (o_props om) = None ->
  o_proto om = Some q ->
  own (st_heap st) q name = Some (VObj f) ->
  code_of (st_heap st) f = Some (CUser fid) ->
  get (st_heap st) f "_run_init" = VUndef ->
  get (st_heap st) f "_this_api" = VUndef ->
  user_call R fid (VObj g) [conf] (st_heap st) = (Ret r, h1) ->
  need R fuel g (VStr name) conf st =
    (Ret r,
     {| st_heap := set_own h1 f "_run_init" (VBool true);
        st_trace := st_trace st ++ [ECall f (VObj g) [conf]] |}).
Proof.
  intros Hm Hom Hnone Hq Hown Hcode Hrun Hbind Hcall.
  assert (get (st_heap st) m name = VObj f) as Hf by (by eapply inherited_get).
  rewrite (need_unrun R fuel g m name f conf st Hm Hf).
  - rewrite Hbind. simpl. rewrite (call_host R _ _ _ _ _ _ Hcode), Hcall. done.
  - apply callable_code. eauto.
  - by rewrite Hrun.
Qed.

(** X3. On a group whose [methods] is an object, [add] does not throw: it
    returns [true] when the name is a string, the method is callable
    and [methods[name]] is [undefined], and [false] in every other
    case. *)
Theorem add_result g m name method apiIsThis st :
  get (st_heap st) g "methods" = VObj m ->
  let ok :=
    match name with
    | VStr s => callable (st_heap st) method
                && is_undefined (get (st_heap st) m s)
    | _ => false
    end in
  fst (add R g name method apiIsThis st) = Ret (VBool ok).
Proof.
  intros Hm ok. subst ok.
  unfold add, bind, read, get_member, set_member, modify, console_error, emit. simpl.
  rewrite typeof_S, typeof_F.
  destruct name as [| | | |s|]; simpl; try done.
  destruct (callable (st_heap st) method) eqn:Hc; simpl; [|done].
  rewrite Hm. simpl.
  apply callable_code in Hc as (f & c & -> & Hc).
  destruct (is_undefined (get (st_heap st) m s)); simpl; [|done].
  rewrite !get_set_own_key by done. by rewrite Hm.
Qed.

Lemma add_need g m name f fid apiIsThis api st :
  own (st_heap st) g "methods" = Some (VObj m) ->
  own (st_heap st) g "api" = Some api ->
  g <> m ->
  code_of (st_heap st) m = None ->
  is_Some (st_heap st !! m) ->
  code_of (st_heap st) f = Some (CUser fid) ->
  get (st_heap st) m name = VUndef ->
  let b := if is_undefined apiIsThis then VBool false else apiIsThis in
  let recv := if truthy b && truthy api then api else VObj g in
  exists st1,
    add R g (VStr name) (VObj f) apiIsThis st = (Ret (VBool true), st1)
    /\ forall fuel conf r h1,
         user_call R fid recv [conf] (st_heap st1) = (Ret r, h1) ->
         need R fuel g (VStr name) conf st1 =
           (Ret r,
            {| st_heap := set_own h1 f "_run_init" (VBool true);
               st_trace := st_trace st ++ [ECall f recv [conf]] |}).
Proof.
  intros Hm Hapi Hgm Hk Hal Hcode Hfree b recv.
  assert (callable (st_heap st) (VObj f) = true) as Hc.
  { apply callable_code. eauto. }
  destruct (add_registers R g m name f apiIsThis st Hm Hgm Hk Hal Hc Hfree)
    as (Hadd & (Hm' & _ & Ho & Hc') & Hflag & Hbind).
  set (st1 := {| st_heap := set_own (set_own (set_own (st_heap st) f "_run_init"
                                            (VBool false)) f "_this_api" b)
                              m name (VObj f);
                 st_trace := st_trace st |}) in *.
  exists st1. split; [exact Hadd|].
  intros fuel conf r h1 Hcall.
  assert (get (st_heap st1) g "api" = api) as Hapi1.
  { apply own_get. simpl. rewrite own_set_own_other by (by left).
    by rewrite !own_set_own_other by (by right). }
  assert (code_of (st_heap st1) f = Some (CUser fid)) as Hcode1.
  { simpl. by rewrite !code_of_set_own. }
  assert (get (st_heap st1) f "_run_init" = VBool false) as Hf1 by (by apply own_get).
  assert (get (st_heap st1) f "_this_api" = b) as Hb1 by (by apply own_get).
  rewrite (need_unrun R fuel g m name f conf st1 Hm' (own_get _ _ _ _ Ho) Hc').
  2: { by rewrite Hf1. }
  rewrite Hb1, Hapi1. fold recv.
  by rewrite (call_host R _ _ _ _ _ _ Hcode1), Hcall.
Qed.

(** X4. From [add] to [need]: a host function registered on a free name
    is the one the next [need] for that name invokes, once, with [conf]
    and with the receiver that [apiIsThis] and the group's [api]
    select; [need] returns what the function returns. *)
Theorem add_then_need g m name f fid apiIsThis api st :
  own (st_heap st) g "methods" = Some (VObj m) ->
  own (st_heap st) g "api" = Some api ->
  g <> m ->
  code_of (st_heap st) m = None ->
  is_Some (st_heap st !! m) ->
  code_of (st_heap st) f = Some (CUser fid) ->
  get (st_heap st) m name = VUndef ->
  let b := if is_undefined apiIsThis then VBool false else apiIsThis in
  let recv := if truthy b && truthy api then api else VObj g in
  exists st1,
    add R g (VStr name) (VObj f) apiIsThis st = (Ret (VBool true), st1)
    /\ forall fuel conf r h1,
         user_call R fid recv [conf] (st_heap st1) = (Ret r, h1) ->
         need R fuel g (VStr name) conf st1 =
           (Ret r,
            {| st_heap := set_own h1 f "_run_init" (VBool true);
               st_trace := st_trace st ++ [ECall f recv [conf]] |}).
Proof. apply add_need. Qed.

(** X5. The two flags live on the function object, not in the group: [add]
    of a function that has already run, under another name or in
    another group, clears its mark, and the next [need] for the name it
    was first registered under invokes it once more. *)
Theorem add_again_clears_mark g1 m1 name1 g2 m2 name2 f fid apiIsThis st :
  own (st_heap st) g1 "methods" = Some (VObj m1) ->
  code_of (st_heap st) m1 = None ->
  own (st_heap st) m1 name1 = Some (VObj f) ->
  own (st_heap st) f "_run_init" = Some (VBool true) ->
  code_of (st_heap st) f = Some (CUser fid) ->
  own (st_heap st) g2 "methods" = Some (VObj m2) ->
  g2 <> m2 -> g1 <> m2 ->
  code_of (st_heap st) m2 = None ->
  is_Some (st_heap st !! m2) ->
  get (st_heap st) m2 name2 = VUndef ->
  exists st1,
    add R g2 (VStr name2) (VObj f) apiIsThis st = (Ret (VBool true), st1)
    /\ own (st_heap st1) f "_run_init" = Some (VBool false)
    /\ forall fuel conf,
         invocations f (st_trace (snd (need R fuel g1 (VStr name1) conf st1)))
         = 1 + invocations f (st_trace st).
Proof.
  intros Hm1 Hk1 Ho1 Hran Hcode Hm2 Hgm2 Hg1m2 Hk2 Hal Hfree.
  assert (callable (st_heap st) (VObj f) = true) as Hc.
  { apply callable_code. eauto. }
  destruct (add_registers R g2 m2 name2 f apiIsThis st Hm2 Hgm2 Hk2 Hal Hc Hfree)
    as (Hadd & (_ & _ & _ & Hc') & Hflag & Hbind).
  set (b := if is_undefined apiIsThis then VBool false else apiIsThis) in *.
  set (st1 := {| st_heap := set_own (set_own (set_own (st_heap st) f "_run_init"
                                            (VBool false)) f "_this_api" b)
                              m2 name2 (VObj f);
                 st_trace := st_trace st |}) in *.
  exists st1. split; [exact Hadd|]. split; [exact Hflag|].
  intros fuel conf.
  assert (m1 <> f) as Hm1f by (intros ->; congruence).
  assert (m2 <> m1 \/ name1 <> name2) as Hdiff.
  { destruct (decide (m2 = m1)) as [->|]; [|by left]. right. intros ->.
    rewrite (own_get _ _ _ _ Ho1) in Hfree. done. }
  assert (code_of (st_heap st1) f = Some (CUser fid)) as Hcode1.
  { simpl. by rewrite !code_of_set_own. }
  rewrite (need_unrun R fuel g1 m1 name1 f conf st1).
  - rewrite (call_host R _ _ _ _ _ _ Hcode1).
    destruct (fst (user_call R fid _ [conf] _)); simpl;
      rewrite invocations_app; simpl; rewrite Nat.eqb_refl; lia.
  - apply own_get. simpl. rewrite own_set_own_other by (by left).
    by rewrite !own_set_own_other by (by right).
  - apply own_get. simpl. rewrite own_set_own_other by done.
    by rewrite !own_set_own_other by (left; congruence).
  - done.
  - assert (get (st_heap st1) f "_run_init" = VBool false) as -> by (by apply own_get).
    done.
Qed.

(** What [need] may change in the heap: what the host function it
    invokes changes, and the mark of that function. *)
Lemma need_frame (P : heap -> Prop) :
  keeps R P ->
  (forall h h1 f, P h -> callable h (VObj f) = true -> P h1 ->
                  P (set_own h1 f "_run_init" (VBool true))) ->
  forall fuel g name conf st,
    P (st_heap st) -> P (st_heap (snd (need R fuel g name conf st))).
Proof.
  intros HK Hmark fuel g name conf st HP.
  unfold need, bind, read, get_member, throw. simpl.
  destruct (get (st_heap st) g "methods") as [| |b|n|s|m]; simpl; try done;
    rewrite typeof_F;
    match goal with |- context [callable ?h ?v] =>
      destruct (callable h v) eqn:Hc; simpl; [|done];
      apply callable_code in Hc as Hc'; destruct Hc' as (f & c & Hv & Hcode);
      rewrite Hv in *; clear Hv; simpl;
      destruct (truthy (get h f "_run_init")); simpl; [done|];
      match goal with |- context [call _ _ (VObj f) ?w _ ?s] =>
        pose proof (call_keeps R _ HK fuel (VObj f) w [conf] s HP) as H1;
        destruct (call R fuel (VObj f) w [conf] s) as [[r| |] st1]; simpl in *;
          try done
      end;
      exact (Hmark _ _ _ HP Hc H1)
    end.
Qed.

Lemma run_frame (P : heap -> Prop) :
  keeps R P ->
  (forall h h1 f, P h -> callable h (VObj f) = true -> P h1 ->
                  P (set_own h1 f "_run_init" (VBool true))) ->
  forall fuel g conf st,
    P (st_heap st) -> P (st_heap (snd (run R fuel g conf st))).
Proof.
  intros HK Hmark fuel g conf st HP.
  assert (forall v k st', P (st_heap st') ->
            P (st_heap (snd ((present <- read (fun h => still_has h v k) ;;
                              if present then need R fuel g (VStr k) conf ;;; ret tt
                              else ret tt) st')))) as Hbody.
  { intros v k st' HP'. unfold bind, read. simpl.
    destruct (still_has _ _ _); simpl; [|done].
    pose proof (need_frame P HK Hmark fuel g (VStr k) conf st' HP') as Hn.
    by destruct (need R fuel g (VStr k) conf st') as [[?| |] ?]. }
  unfold run, bind at 1, get_member, read, throw.
  unfold bind at 1. rewrite for_in_eq.
  pose proof (for_each_frame P _ (Hbody (get (st_heap st) g "methods"))
                (enum_keys R (st_heap st) (get (st_heap st) g "methods")) st HP) as Hf.
  by destruct (for_each _ _ st) as [[[]| |] st1].
Qed.

(** X6. [run] neither unregisters a name nor clears a mark, whatever its
    outcome, as long as the host functions do not. *)
Theorem run_keeps_registrations g m name f :
  keeps R (fun h => registered h g m name f) ->
  keeps R (fun h => has_run h f) ->
  forall fuel g' conf st,
    (registered (st_heap st) g m name f ->
     registered (st_heap (snd (run R fuel g' conf st))) g m name f)
    /\ (has_run (st_heap st) f ->
        has_run (st_heap (snd (run R fuel g' conf st))) f).
Proof.
  intros Kreg Krun fuel g' conf st. split.
  - apply (run_frame (fun h => registered h g m name f)); [done|].
    intros h h1 f' Hr Hc Hr1. by eapply registered_mark.
  - apply (run_frame (fun h => has_run h f)); [done|].
    intros h h1 f' _ _ Hr1. by apply has_run_mark.
Qed.

(** X7. One function under two names has one mark: once [need] has
    completed for the one name, [need] for the other returns [true]
    and invokes nothing. *)
Theorem need_shared_mark g m name1 name2 f :
  keeps R (fun h => registered h g m name1 f) ->
  keeps R (fun h => registered h g m name2 f) ->
  forall fuel st conf r st1 conf2,
    registered (st_heap st) g m name1 f ->
    registered (st_heap st) g m name2 f ->
    need R fuel g (VStr name1) conf st = (Ret r, st1) ->
    need R fuel g (VStr name2) conf2 st1 = (Ret (VBool true), st1).
Proof.
  intros K1 K2 fuel st conf r st1 conf2 H1 H2 Hneed.
  destruct (need_completed_ran R g m name1 f K1 fuel st conf r st1 H1 Hneed)
    as [_ Hrun].
  assert (registered (st_heap st1) g m name2 f) as (Hm & _ & Ho & Hc).
  { pose proof (need_frame (fun h => registered h g m name2 f) K2
                  ltac:(intros h h1 f' Hr Hc Hr1; by eapply registered_mark)
                  fuel g (VStr name1) conf st H2) as H.
    by rewrite Hneed in H. }
  by apply (need_ran R fuel g m name2 f); [|apply own_get| |].
Qed.

(** X8. An initialiser that throws is not marked: [need] passes the
    exception on with [_run_init] as it was, and the next [need] for
    the name invokes the function again. *)
Theorem need_retries_after_throw fuel g m name f fid conf conf2 st e h1 :
  let recv h := if truthy (get h f "_this_api") && truthy (get h g "api")
                then get h g "api" else VObj g in
  get (st_heap st) g "methods" = VObj m ->
  get (st_heap st) m name = VObj f ->
  code_of (st_heap st) f = Some (CUser fid) ->
  truthy (get (st_heap st) f "_run_init") = false ->
  user_call R fid (recv (st_heap st)) [conf] (st_heap st) = (Throw e, h1) ->
  get h1 g "methods" = VObj m ->
  get h1 m name = VObj f ->
  code_of h1 f = Some (CUser fid) ->
  get h1 f "_run_init" = get (st_heap st) f "_run_init" ->
  let st1 := {| st_heap := h1;
                st_trace := st_trace st ++ [ECall f (recv (st_heap st)) [conf]] |} in
  need R fuel g (VStr name) conf st = (Throw e, st1)
  /\ st_trace (snd (need R fuel g (VStr name) conf2 st1))
     = st_trace st ++ [ECall f (recv (st_heap st)) [conf]; ECall f (recv h1) [conf2]].
Proof.
  intros recv Hm Hf Hcode Hrun Hcall Hm1 Hf1 Hcode1 Hrun1 st1.
  assert (forall h, code_of h f = Some (CUser fid) -> callable h (VObj f) = true) as Hcl.
  { intros h H. apply callable_code. eauto. }
  split.
  - rewrite (need_unrun R fuel g m name f conf st Hm Hf (Hcl _ Hcode) Hrun).
    fold (recv (st_heap st)).
    by rewrite (call_host R _ _ _ _ _ _ Hcode), Hcall.
  - rewrite (need_unrun R fuel g m name f conf2 st1 Hm1 Hf1 (Hcl _ Hcode1)).
    2: { simpl. by rewrite Hrun1. }
    fold (recv (st_heap st1)).
    rewrite (call_host R fuel f fid _ [conf2] st1 Hcode1). simpl.
    destruct (fst (user_call R fid (recv h1) [conf2] h1)); simpl;
      by rewrite <- app_assoc.
Qed.

Lemma has_property_get h l k : get h l k <> VUndef -> has_property h l k = true.
Proof.
  intros H. destruct (has_property h l k) eqn:E; [done|].
  by rewrite (absent_get _ _ _ E) in H.
Qed.

(** One turn of the loop of [run] on a name whose function is
    marked. *)
Lemma run_body_ran fuel g m conf k st :
  get (st_heap st) g "methods" = VObj m ->
  (exists f, get (st_heap st) m k = VObj f /\ callable (st_heap st) (VObj f) = true
             /\ truthy (get (st_heap st) f "_run_init") = true) ->
  run_body R fuel g m conf k st = (Ret tt, st).
Proof.
  intros Hm (f & Hf & Hc & Hrun). unfold run_body, bind, read. simpl.
  rewrite has_property_get by (by rewrite Hf).
  by rewrite (need_ran R fuel g m k f conf st Hm Hf Hc Hrun).
Qed.

Lemma run_loop_ran fuel g m conf ks st :
  get (st_heap st) g "methods" = VObj m ->
  Forall (fun k => exists f, get (st_heap st) m k = VObj f
                             /\ callable (st_heap st) (VObj f) = true
                             /\ truthy (get (st_heap st) f "_run_init") = true) ks ->
  for_each ks (run_body R fuel g m conf) st = (Ret tt, st).
Proof.
  intros Hm Hall. induction Hall as [|k ks Hk Hall IH]; [done|].
  simpl. unfold bind at 1. by rewrite (run_body_ran fuel g m conf k st Hm Hk).
Qed.

Lemma run_unfold fuel g m conf st :
  get (st_heap st) g "methods" = VObj m ->
  run R fuel g conf st =
    match for_each (enum_keys R (st_heap st) (VObj m)) (run_body R fuel g m conf) st with
    | (Ret _, st') => (Ret VUndef, st')
    | (Throw e, st') => (Throw e, st')
    | (Diverge, st') => (Diverge, st')
    end.
Proof.
  intros Hm. unfold run, bind at 1, get_member, read. rewrite Hm.
  unfold bind at 1. rewrite for_in_eq. fold (run_body R fuel g m conf).
  by destruct (for_each _ _ st) as [[?| |] ?].
Qed.

Lemma run_noop fuel g m conf st :
  get (st_heap st) g "methods" = VObj m ->
  Forall (fun k => exists f, get (st_heap st) m k = VObj f
                             /\ callable (st_heap st) (VObj f) = true
                             /\ truthy (get (st_heap st) f "_run_init") = true)
    (enum_keys R (st_heap st) (VObj m)) ->
  run R fuel g conf st = (Ret VUndef, st).
Proof.
  intros Hm Hall. rewrite (run_unfold fuel g m conf st Hm).
  by rewrite (run_loop_ran fuel g m conf _ st Hm Hall).
Qed.

(** X9. [run] on a group all of whose initialisers have run, and so also
    on a group without initialisers, invokes nothing and changes
    nothing. *)
Theorem run_all_ran fuel g m conf st :
  get (st_heap st) g "methods" = VObj m ->
  Forall (fun k => exists f, get (st_heap st) m k = VObj f
                             /\ callable (st_heap st) (VObj f) = true
                             /\ truthy (get (st_heap st) f "_run_init") = true)
    (enum_keys R (st_heap st) (VObj m)) ->
  run R fuel g conf st = (Ret VUndef, st).
Proof. apply run_noop. Qed.

(** X10. [run] ends at the first initialiser that throws: the ones before
    it in the enumeration having run, it is invoked, its exception
    leaves [run], it is not marked, and no later initialiser is
    reached. *)
Theorem run_stops_at_throw fuel g m conf st pre k post f fid e h1 :
  get (st_heap st) g "methods" = VObj m ->
  enum_keys R (st_heap st) (VObj m) = pre ++ k :: post ->
  Forall (fun k => exists f, get (st_heap st) m k = VObj f
                             /\ callable (st_heap st) (VObj f) = true
                             /\ truthy (get (st_heap st) f "_run_init") = true) pre ->
  get (st_heap st) m k = VObj f ->
  code_of (st_heap st) f = Some (CUser fid) ->
  truthy (get (st_heap st) f "_run_init") = false ->
  let recv := if truthy (get (st_heap st) f "_this_api")
                 && truthy (get (st_heap st) g "api")
              then get (st_heap st) g "api" else VObj g in
  user_call R fid recv [conf] (st_heap st) = (Throw e, h1) ->
  run R fuel g conf st =
    (Throw e, {| st_heap := h1; st_trace := st_trace st ++ [ECall f recv [conf]] |}).
Proof.
  intros Hm Hkeys Hpre Hf Hcode Hrun recv Hcall.
  rewrite (run_unfold fuel g m conf st Hm), Hkeys, for_each_app.
  rewrite (run_loop_ran fuel g m conf pre st Hm Hpre).
  assert (run_body R fuel g m conf k st =
            (Throw e, {| st_heap := h1;
                         st_trace := st_trace st ++ [ECall f recv [conf]] |})) as Hk.
  { unfold run_body, bind, read. simpl.
    rewrite has_property_get by (by rewrite Hf).
    rewrite (need_unrun R fuel g m k f conf st Hm Hf); [|apply callable_code; eauto|done].
    fold recv. by rewrite (call_host R _ _ _ _ _ _ Hcode), Hcall. }
  cbn [for_each]. unfold bind at 1. by rewrite Hk.
Qed.
(** The state the constructor ends in: the three assignments, with the
    methods object allocated before the last. *)
Lemma constructor_eval this name api st :
  constructor R this name api st =
    (Ret tt,
     {| st_heap :=
          set_own (set_own (set_own (st_heap st) this "api"
                              (if is_undefined api then VNull else api))
                     this "name" name
                   ++ [{| o_proto := Some (Object_prototype R);
                          o_kind := KObject; o_props := [] |}])
            this "methods" (VObj (length (st_heap st)));
        st_trace := st_trace st |}).
Proof.
  unfold constructor, bind, set_member, modify, alloc. simpl.
  by rewrite !length_set_own.
Qed.

Lemma constructor_facts this name api (h : heap) :
  is_Some (h !! this) ->
  let api' := if is_undefined api then VNull else api in
  let m : loc := length h in
  let h1 : heap :=
    set_own (set_own (set_own h this "api" api') this "name" name
             ++ [{| o_proto := Some (Object_prototype R);
                    o_kind := KObject; o_props := [] |}])
      this "methods" (VObj m) in
  own h1 this "methods" = Some (VObj m)
  /\ own h1 this "api" = Some api'
  /\ own h1 this "name" = Some name
  /\ h1 !! m = Some {| o_proto := Some (Object_prototype R);
                       o_kind := KObject; o_props := [] |}
  /\ this <> m
  /\ (forall l, l <> this -> is_Some (h !! l) -> h1 !! l = h !! l)
  /\ (forall l, is_Some (h !! l) -> code_of h1 l = code_of h l)
  /\ length h1 = S (length h).
Proof.
  intros Hthis api' m h1.
  set (hA := set_own (set_own h this "api" api') this "name" name) in *.
  set (o := {| o_proto := Some (Object_prototype R); o_kind := KObject; o_props := [] |}) in *.
  assert (length hA = length h) as HlenA by (unfold hA; by rewrite !length_set_own).
  assert (this < length h) as Hlt by (destruct Hthis; by eapply lookup_lt_Some).
  assert (forall l, l < length h -> (hA ++ [o]) !! l = hA !! l) as Happ.
  { intros l Hl. apply lookup_app_l. lia. }
  assert (is_Some (set_own h this "api" api' !! this)) as Hs1.
  { rewrite lookup_set_own. destruct Hthis as [? ->]. by eexists. }
  assert (is_Some (hA !! this)) as HsA.
  { unfold hA. rewrite lookup_set_own. destruct Hs1 as [? ->]. by eexists. }
  assert ((hA ++ [o]) !! m = Some o) as Hm.
  { unfold m. rewrite <- HlenA. exact (list_lookup_middle hA [] o (length hA) eq_refl). }
  assert (this <> m) as Hne by (unfold m; lia).
  split; [|split; [|split; [|split; [|split; [|split; [|split]]]]]].
  - apply own_set_own_same. by rewrite Happ.
  - unfold h1. rewrite own_set_own_other by (by right).
    rewrite (own_ext hA (hA ++ [o])) by (by apply Happ).
    unfold hA. rewrite own_set_own_other by (by right).
    by apply own_set_own_same.
  - unfold h1. rewrite own_set_own_other by (by right).
    rewrite (own_ext hA (hA ++ [o])) by (by apply Happ).
    by apply own_set_own_same.
  - unfold h1. by rewrite lookup_set_own_other.
  - done.
  - intros l Hl Hsome. unfold h1. rewrite lookup_set_own_other by done.
    rewrite Happ by (destruct Hsome; by eapply lookup_lt_Some).
    unfold hA. by rewrite !lookup_set_own_other by done.
  - intros l Hsome. unfold h1. rewrite code_of_set_own.
    rewrite (code_of_ext hA (hA ++ [o]))
      by (apply Happ; destruct Hsome; by eapply lookup_lt_Some).
    unfold hA. by rewrite !code_of_set_own.
  - unfold h1. rewrite length_set_own, length_app, HlenA. simpl. lia.
Qed.
(** A read on the methods object of a new group goes to
    [Object.prototype]. *)
Lemma new_methods_get this name api key (h : heap) oq :
  is_Some (h !! this) ->
  this <> Object_prototype R ->
  h !! Object_prototype R = Some oq ->
  o_proto oq = None ->
  get (st_heap (snd (constructor R this name api
                       {| st_heap := h; st_trace := [] |})))
      (length h) key
  = default VUndef (p_val <$> lookup_prop key (o_props oq)).
Proof.
  intros Hthis Hne Hq Hnone. rewrite constructor_eval. simpl.
  destruct (constructor_facts this name api h Hthis)
    as (_ & _ & _ & Hm & _ & Hsame & _ & Hlen).
  unfold get. rewrite Hlen. cbn [get_fuel]. rewrite Hm. cbn [o_props o_proto lookup_prop].
  rewrite (Hsame _ (not_eq_sym Hne)) by (by eexists). rewrite Hq, Hnone.
  by destruct (lookup_prop key (o_props oq)).
Qed.

(** X11. [new InitGroup(name, api)], then [add(key, f, apiIsThis)], then
    [need(key, conf)]: on a new group every name that
    [Object.prototype] does not define can be registered, and [need]
    then invokes the function with [conf], on the api when [apiIsThis]
    and the api are truthy, on the group otherwise. *)
Theorem new_group_add_need this name api key f fid apiIsThis st oq :
  is_Some (st_heap st !! this) ->
  this <> Object_prototype R ->
  st_heap st !! Object_prototype R = Some oq ->
  o_proto oq = None ->
  lookup_prop key (o_props oq) = None ->
  code_of (st_heap st) f = Some (CUser fid) ->
  let api' := if is_undefined api then VNull else api in
  let b := if is_undefined apiIsThis then VBool false else apiIsThis in
  let recv := if truthy b && truthy api' then api' else VObj this in
  exists st1 st2,
    constructor R this name api st = (Ret tt, st1)
    /\ add R this (VStr key) (VObj f) apiIsThis st1 = (Ret (VBool true), st2)
    /\ forall fuel conf r h',
         user_call R fid recv [conf] (st_heap st2) = (Ret r, h') ->
         need R fuel this (VStr key) conf st2 =
           (Ret r, {| st_heap := set_own h' f "_run_init" (VBool true);
                      st_trace := st_trace st ++ [ECall f recv [conf]] |}).
Proof.
  intros Hthis Hne Hq Hnone Hkey Hcode api' b recv.
  destruct (constructor_facts this name api (st_heap st) Hthis)
    as (Hmeth & Hapi & _ & Hm & Hgm & Hsame & Hcodes & Hlen).
  pose proof (new_methods_get this name api key (st_heap st) oq Hthis Hne Hq Hnone) as Hfree.
  rewrite constructor_eval in Hfree. simpl in Hfree. rewrite Hkey in Hfree. simpl in Hfree.
  eexists. 
  destruct (add_need this (length (st_heap st)) key f fid apiIsThis api'
              {| st_heap := _; st_trace := st_trace st |} Hmeth Hapi Hgm)
    as (st2 & Hadd & Hneed).
  - cbn [st_heap]. by rewrite (code_of_lookup _ _ _ Hm).
  - by eexists.
  - cbn [st_heap]. rewrite Hcodes; [done|]. by eapply code_of_alloc.
  - done.
  - exists st2. split; [apply constructor_eval|]. split; [exact Hadd|]. exact Hneed.
Qed.

(** The report of [add] on a name that is taken. *)
Lemma add_taken g m key method apiIsThis st :
  get (st_heap st) g "methods" = VObj m ->
  get (st_heap st) m key <> VUndef ->
  callable (st_heap st) method = true ->
  add R g (VStr key) method apiIsThis st =
    (Ret (VBool false),
     {| st_heap := st_heap st;
        st_trace := st_trace st ++
          [EConsoleError [VStr "cannot overwrite init method";
                          VStr key; method; VObj g]] |}).
Proof.
  intros Hm Hv Hc. unfold add, bind, read, get_member, console_error, emit. simpl.
  rewrite typeof_F, Hc. simpl. rewrite Hm. simpl.
  by destruct (get (st_heap st) m key).
Qed.

(** X12. On a new group [add] refuses every name that [Object.prototype]
    defines, such as [toString]: the methods object is a plain object,
    the test reads through its prototype, and the name counts as
    taken. *)
Theorem new_group_rejects_inherited this name api key v method apiIsThis st oq :
  is_Some (st_heap st !! this) ->
  this <> Object_prototype R ->
  st_heap st !! Object_prototype R = Some oq ->
  o_proto oq = None ->
  p_val <$> lookup_prop key (o_props oq) = Some v ->
  v <> VUndef ->
  callable (st_heap st) method = true ->
  exists st1,
    constructor R this name api st = (Ret tt, st1)
    /\ add R this (VStr key) method apiIsThis st1 =
         (Ret (VBool false),
          {| st_heap := st_heap st1;
             st_trace := st_trace st ++
               [EConsoleError [VStr "cannot overwrite init method";
                               VStr key; method; VObj this]] |}).
Proof.
  intros Hthis Hne Hq Hnone Hkey Hv Hc.
  destruct (constructor_facts this name api (st_heap st) Hthis)
    as (Hmeth & _ & _ & _ & _ & _ & Hcodes & _).
  pose proof (new_methods_get this name api key (st_heap st) oq Hthis Hne Hq Hnone) as Hget.
  rewrite constructor_eval in Hget. simpl in Hget. rewrite Hkey in Hget. simpl in Hget.
  eexists. split; [apply constructor_eval|].
  apply (add_taken this (length (st_heap st)) key method apiIsThis
           {| st_heap := _; st_trace := st_trace st |}).
  - by apply own_get.
  - cbn [st_heap]. rewrite Hget. done.
  - cbn [st_heap]. apply callable_code in Hc as (f & c & -> & Hc).
    apply callable_code. exists f, c. split; [done|].
    rewrite Hcodes; [done|]. by eapply code_of_alloc.
Qed.

(** X13. [run] on a new group invokes nothing and changes nothing, where,
    as in JavaScript, [Object.prototype] has no enumerable property. *)
Theorem new_group_run this name api conf fuel st oq :
  is_Some (st_heap st !! this) ->
  this <> Object_prototype R ->
  st_heap st !! Object_prototype R = Some oq ->
  o_proto oq = None ->
  Forall (fun kp => p_enum (snd kp) = false) (o_props oq) ->
  exists st1,
    constructor R this name api st = (Ret tt, st1)
    /\ st_trace st1 = st_trace st
    /\ run R fuel this conf st1 = (Ret VUndef, st1).
Proof.
  intros Hthis Hne Hq Hnone Hhid.
  destruct (constructor_facts this name api (st_heap st) Hthis)
    as (Hmeth & _ & _ & Hm & _ & Hsame & _ & _).
  eexists. split; [apply constructor_eval|]. split; [done|].
  apply (run_noop fuel this (length (st_heap st))); [by apply own_get|].
  cbn [st_heap].
  rewrite (enum_keys_own R _ _ _ (Object_prototype R) oq Hm);
    [by constructor|by constructor|done| |done|done].
  by rewrite (Hsame _ (not_eq_sym Hne)) by (by eexists).
Qed.

Lemma assign_prop_fresh k v ps :
  lookup_prop k ps = None ->
  assign_prop k v ps = ps ++ [(k, {| p_val := v; p_enum := true |})].
Proof.
  induction ps as [|[k' p] ps IH]; simpl; [done|].
  destruct (k =? k')%string; [done|]. intros H. by rewrite IH.
Qed.

Lemma lookup_prop_notin k ps : ~ In k (map fst ps) -> lookup_prop k ps = None.
Proof.
  induction ps as [|[k' p] ps IH]; simpl; [done|]. intros H.
  destruct (k =? k')%string eqn:E.
  - apply String.eqb_eq in E. destruct H. by left.
  - apply IH. intros Hin. apply H. by right.
Qed.

(** A read on an object without the key, above a prototype that has
    no prototype itself. *)
Lemma get_via_prototype (h : heap) l o q oq k :
  h !! l = Some o -> lookup_prop k (o_props o) = None ->
  o_proto o = Some q -> h !! q = Some oq -> o_proto oq = None ->
  get h l k = default VUndef (p_val <$> lookup_prop k (o_props oq)).
Proof.
  intros Hl Hk Hq Hoq Hnone. unfold get. cbn [get_fuel]. rewrite Hl, Hk, Hq.
  destruct (length h) as [|n] eqn:E.
  { apply lookup_lt_Some in Hl. lia. }
  cbn [get_fuel]. rewrite Hoq, Hnone. by destruct (lookup_prop k (o_props oq)).
Qed.

Lemma receiver_stored g api i : receiver g api (stored i) = receiver g api i.
Proof. unfold receiver, stored. simpl. by destruct (i_bind i). Qed.

Lemma calls_stored g api conf inits :
  map (fun i => ECall (i_fn i) (receiver g api i) [conf])
    (List.filter pending (map stored inits))
  = map (fun i => ECall (i_fn i) (receiver g api i) [conf]) inits.
Proof.
  induction inits as [|i inits IH]; [done|].
  cbn [map List.filter pending stored i_ran negb]. cbn [map].
  by rewrite IH, receiver_stored.
Qed.

(** What a sequence of [add] calls builds: the methods object gets one
    property for each initialiser, in the order of the calls, and each
    function its two flags. *)
Lemma adds_register g m api q oq :
  g <> m -> q <> m -> o_proto oq = None ->
  forall rest done_ st,
    own (st_heap st) g "methods" = Some (VObj m) ->
    own (st_heap st) g "api" = Some api ->
    st_heap st !! m = Some {| o_proto := Some q; o_kind := KObject;
                              o_props := map slot done_ |} ->
    st_heap st !! q = Some oq ->
    Forall (entry (st_heap st) m) (map stored done_) ->
    NoDup (map i_name (done_ ++ rest)) ->
    NoDup (map i_fn (done_ ++ rest)) ->
    Forall (fun i => lookup_prop (i_name i) (o_props oq) = None) rest ->
    Forall (fun i => code_of (st_heap st) (i_fn i) = Some (CUser (i_fid i))) rest ->
    ~ In g (map i_fn rest) -> ~ In q (map i_fn rest) ->
    exists st',
      adds R g rest st = (Ret tt, st')
      /\ st_trace st' = st_trace st
      /\ own (st_heap st') g "methods" = Some (VObj m)
      /\ own (st_heap st') g "api" = Some api
      /\ st_heap st' !! m = Some {| o_proto := Some q; o_kind := KObject;
                                    o_props := map slot (done_ ++ rest) |}
      /\ st_heap st' !! q = Some oq
      /\ Forall (entry (st_heap st') m) (map stored (done_ ++ rest)).
Proof.
  intros Hgm Hqm Hnone rest.
  induction rest as [|i rest IH]; intros done_ st Hmeth Hapi Hm Hq Hent Hnames Hfns
    Hfree Hcodes Hg Hqf.
  { exists st. rewrite app_nil_r. by repeat split. }
  apply Forall_cons in Hfree as [Hfree1 Hfree].
  apply Forall_cons in Hcodes as [Hcode Hcodes].
  set (f := i_fn i) in *. set (name := i_name i) in *.
  assert (code_of (st_heap st) m = None) as Hk by (by rewrite (code_of_lookup _ _ _ Hm)).
  assert (f <> m) as Hfm by (intros E; rewrite E in Hcode; congruence).
  assert (f <> g) as Hfg by (intros E; apply Hg; left; done).
  assert (f <> q) as Hfq by (intros E; apply Hqf; left; done).
  assert (~ In name (map i_name done_)) as Hnew.
  { rewrite map_app in Hnames. apply NoDup_app in Hnames as (_ & Hd & _).
    intros Hin. apply list_elem_of_In in Hin. apply (Hd _ Hin). simpl. left. }
  assert (lookup_prop name (map slot done_) = None) as Hlk.
  { apply lookup_prop_notin. by rewrite map_map. }
  assert (get (st_heap st) m name = VUndef) as Hundef.
  { rewrite (get_via_prototype _ _ _ _ _ _ Hm Hlk eq_refl Hq Hnone). by rewrite Hfree1. }
  destruct (add_registers R g m name f (i_bind i) st Hmeth Hgm Hk ltac:(by eexists)
              ltac:(apply callable_code; eauto) Hundef)
    as (Hadd & (_ & _ & Hslot & _) & Hflag & Hbind).
  set (b := if is_undefined (i_bind i) then VBool false else i_bind i) in *.
  set (h' := set_own (set_own (set_own (st_heap st) f "_run_init" (VBool false))
                        f "_this_api" b) m name (VObj f)) in *.
  destruct (IH (done_ ++ [i]) {| st_heap := h'; st_trace := st_trace st |})
    as (st' & Hadds & Htr & H1 & H2 & H3 & H4 & H5).
  - cbn [st_heap]. unfold h'. rewrite own_set_own_other by (left; congruence).
    by rewrite !own_set_own_other by (by left).
  - cbn [st_heap]. unfold h'. rewrite own_set_own_other by (left; congruence).
    by rewrite !own_set_own_other by (by left).
  - cbn [st_heap]. unfold h'.
    erewrite lookup_set_own_same; cycle 1.
    { rewrite !lookup_set_own_other by done. exact Hm. }
    cbn [o_proto o_kind o_props]. rewrite (assign_prop_fresh _ _ _ Hlk).
    by rewrite map_app.
  - cbn [st_heap]. unfold h'. rewrite lookup_set_own_other by congruence.
    by rewrite !lookup_set_own_other by done.
  - cbn [st_heap]. rewrite map_app. apply Forall_app. split.
    + rewrite Forall_forall in Hent. apply Forall_forall. intros j Hj.
      pose proof Hj as Hj'. apply list_elem_of_In, in_map_iff in Hj' as (j0 & <- & Hj0).
      destruct (Hent _ Hj) as (E1 & E2 & E3 & E4). simpl in E1, E2, E3, E4.
      assert (i_name j0 <> name) as Hnn.
      { intros E. apply Hnew. rewrite <- E. by apply in_map. }
      assert (i_fn j0 <> f) as Hff.
      { intros E. rewrite map_app in Hfns. apply NoDup_app in Hfns as (_ & Hd & _).
        apply (Hd (i_fn j0)); [apply list_elem_of_In; by apply in_map|].
        rewrite E. simpl. left. }
      assert (m <> i_fn j0) as Hmf by (intros E; rewrite <- E in E2; congruence).
      unfold entry, h'. simpl.
      rewrite !code_of_set_own.
      rewrite (own_set_own_other _ m name _ m) by (by right).
      rewrite !(own_set_own_other _ m name _ (i_fn j0)) by (by left).
      rewrite !(own_set_own_other _ f _ _ m) by (by left).
      rewrite !(own_set_own_other _ f _ _ (i_fn j0)) by (left; congruence).
      done.
    + constructor; [|constructor]. unfold entry, stored. simpl.
      fold f name b. unfold h' at 2. rewrite !code_of_set_own. done.
  - by rewrite <- app_assoc.
  - by rewrite <- app_assoc.
  - done.
  - cbn [st_heap]. unfold h'. apply Forall_forall. intros j Hj.
    rewrite !code_of_set_own. rewrite Forall_forall in Hcodes. by apply Hcodes.
  - intros Hin. apply Hg. by right.
  - intros Hin. apply Hqf. by right.
  - exists st'. rewrite <- app_assoc in H3, H5. simpl in H3, H5.
    split; [|done]. cbn [adds]. unfold bind. fold name f. by rewrite Hadd.
Qed.

(** X14. Registration order. On a new group, initialisers registered under
    names that are no array indices and that [Object.prototype] does
    not define are invoked by [run] in the order of the [add] calls:
    each once, with [conf], on the api when its [apiIsThis] and the
    api are truthy and on the group otherwise. The functions are
    distinct host functions that return and leave the group's
    bookkeeping alone. *)
Theorem run_follows_registration this name api (inits : list init) fuel conf st oq :
  is_Some (st_heap st !! this) ->
  this <> Object_prototype R ->
  st_heap st !! Object_prototype R = Some oq ->
  o_proto oq = None ->
  o_kind oq = KObject ->
  Forall (fun kp => p_enum (snd kp) = false) (o_props oq) ->
  NoDup (map i_name inits) ->
  Forall (fun i => is_name (i_name i) = true
                   /\ lookup_prop (i_name i) (o_props oq) = None) inits ->
  NoDup (map i_fn inits) ->
  Forall (fun i => code_of (st_heap st) (i_fn i) = Some (CUser (i_fid i))) inits ->
  ~ In this (map i_fn inits) ->
  untouched R (this :: length (st_heap st) :: map i_fn inits) ->
  returns R ->
  let api' := if is_undefined api then VNull else api in
  exists st1 st2 st3,
    constructor R this name api st = (Ret tt, st1)
    /\ adds R this inits st1 = (Ret tt, st2)
    /\ run R fuel this conf st2 = (Ret VUndef, st3)
    /\ st_trace st3 = st_trace st ++
         map (fun i => ECall (i_fn i) (receiver this api' i) [conf]) inits.
Proof.
  intros Hthis Hne Hq Hnone Hkind Hhid Hnames Hfree Hfns Hcodes Hg Hun Hret api'.
  destruct (constructor_facts this name api (st_heap st) Hthis)
    as (Hmeth & Hapi & _ & Hm & Hgm & Hsame & Hcodes1 & _).
  fold api' in Hmeth, Hapi, Hm, Hsame, Hcodes1.
  set (m := length (st_heap st) : loc) in *.
  set (q := Object_prototype R) in *.
  set (h1 := set_own _ this "methods" (VObj m)) in *.
  assert (q <> m) as Hqm.
  { unfold m. apply lookup_lt_Some in Hq. lia. }
  assert (~ In q (map i_fn inits)) as Hqf.
  { intros Hin. apply in_map_iff in Hin as (i & Hi & Hin).
    rewrite Forall_forall in Hcodes. apply list_elem_of_In in Hin.
    specialize (Hcodes _ Hin). rewrite Hi in Hcodes.
    rewrite (code_of_lookup _ _ _ Hq), Hkind in Hcodes. done. }
  destruct (adds_register this m api' q oq Hgm Hqm Hnone inits []
              {| st_heap := h1; st_trace := st_trace st |})
    as (st2 & Hadds & Htr & H1 & H2 & H3 & H4 & H5); try done.
  - cbn [st_heap]. rewrite (Hsame _ (not_eq_sym Hne)) by (by eexists). done.
  - eapply Forall_impl; [exact Hfree|]. by intros i [_ ?].
  - cbn [st_heap]. apply Forall_forall. intros i Hi.
    rewrite Forall_forall in Hcodes. specialize (Hcodes _ Hi).
    rewrite Hcodes1; [done|]. by eapply code_of_alloc.
  - simpl in H3, H5.
    assert (map i_fn (map stored inits) = map i_fn inits) as Efn.
    { rewrite map_map. done. }
    assert (map i_name (map stored inits) = map i_name inits) as Ename.
    { rewrite map_map. done. }
    destruct (run_each R this m api' (map stored inits)
                ltac:(by rewrite Efn) Hret fuel st2 conf H1 H2)
      as (st3 & Hrun & Htr3 & _).
    + by rewrite (code_of_lookup _ _ _ H3).
    + rewrite (enum_keys_own R _ _ _ q oq H3); try done.
      * cbn [o_props]. rewrite own_keys_names.
        -- by rewrite map_map, Ename.
        -- apply Forall_forall. intros kp Hkp.
           apply list_elem_of_In, in_map_iff in Hkp as (i & <- & Hi).
           rewrite Forall_forall in Hfree. apply list_elem_of_In in Hi.
           by destruct (Hfree _ Hi).
      * cbn [o_props]. apply Forall_forall. intros kp Hkp.
        by apply list_elem_of_In, in_map_iff in Hkp as (i & <- & Hi).
    + by rewrite Efn.
    + done.
    + exists {| st_heap := h1; st_trace := st_trace st |}, st2, st3.
      split; [apply constructor_eval|]. split; [exact Hadds|]. split; [exact Hrun|].
      rewrite Htr3, Htr. cbn [st_trace]. by rewrite calls_stored.
Qed.

End WithRealm.
Import Example Scenes.

(** On the group of [st_named], which has no "gamma". *)
Lemma need_missing_name_witness :
  need R0 0 group (VStr "gamma") VNull st_named =
    (Ret (VBool false),
     {| st_heap := st_heap st_named;
        st_trace := st_trace st_named ++
          [EConsoleError [VStr "invalid init method requested";
                          VStr "gamma"; VObj group; VNull]] |}).
Proof.
  apply (need_missing_name R0 0 group methods (VStr "gamma") VNull st_named).
  - vm_compute. reflexivity.
  - left. vm_compute. reflexivity.
Defined.

(** On the group of [st_named]: [need("toString", null)] finds
    [Object.prototype.toString] and invokes it on the group. *)
Lemma need_inherited_name_witness :
  need R0 0 group (VStr "toString") VNull st_named =
    (Ret (VNum 3),
     {| st_heap := set_own (st_heap st_named) toString_fn "_run_init" (VBool true);
        st_trace := st_trace st_named ++ [ECall toString_fn (VObj group) [VNull]] |}).
Proof.
  apply (need_inherited_name R0 0 group methods
           (obj (Some 0) KObject
              [("alpha", field (VObj init_f)); ("beta", field (VObj init_g))])
           0 "toString" toString_fn 3 VNull st_named (VNum 3) (st_heap st_named)).
  all: vm_compute; reflexivity.
Defined.

(** A name that is free and one that is taken, on [st_named]. *)
Lemma add_result_witness :
  fst (add R0 group (VStr "gamma") (VObj init_f) VUndef st_named) = Ret (VBool true)
  /\ fst (add R0 group (VStr "alpha") (VObj init_g) VUndef st_named) = Ret (VBool false).
Proof.
  split.
  - apply (add_result R0 group methods (VStr "gamma") (VObj init_f) VUndef st_named).
    vm_compute. reflexivity.
  - apply (add_result R0 group methods (VStr "alpha") (VObj init_g) VUndef st_named).
    vm_compute. reflexivity.
Defined.

(** [g.add("gamma", save)] on [st_named], then [g.need("gamma", null)]. *)
Lemma add_then_need_witness :
  exists st1,
    add R0 group (VStr "gamma") (VObj save_fn) VUndef st_named = (Ret (VBool true), st1)
    /\ need R0 0 group (VStr "gamma") VNull st1 =
         (Ret (VNum 4),
          {| st_heap := set_own (st_heap st1) save_fn "_run_init" (VBool true);
             st_trace := st_trace st_named ++ [ECall save_fn (VObj group) [VNull]] |}).
Proof.
  destruct (add_then_need R0 group methods "gamma" save_fn 4 VUndef VNull st_named)
    as (st1 & Hadd & Hneed); try (vm_compute; reflexivity).
  - discriminate.
  - vm_compute. eexists. reflexivity.
  - exists st1. split; [exact Hadd|]. apply Hneed. reflexivity.
Defined.

(** [f] has run as "alpha"; [g.add("gamma", f)] clears its mark, and
    [g.need("alpha")] then invokes it a second time. *)
Lemma add_again_clears_mark_witness :
  exists st1,
    add R0 group (VStr "gamma") (VObj init_f) VUndef st_alpha_ran = (Ret (VBool true), st1)
    /\ own (st_heap st1) init_f "_run_init" = Some (VBool false)
    /\ invocations init_f (st_trace (snd (need R0 0 group (VStr "alpha") VNull st1))) = 2.
Proof.
  destruct (add_again_clears_mark R0 group methods "alpha" group methods "gamma"
              init_f 6 VUndef st_alpha_ran)
    as (st1 & Hadd & Hflag & Hinv); try (vm_compute; reflexivity).
  - discriminate.
  - discriminate.
  - vm_compute. eexists. reflexivity.
  - exists st1. split; [exact Hadd|]. split; [exact Hflag|]. apply Hinv.
Defined.

(** [run] on [st_alpha_ran] keeps "alpha" registered and marked. *)
Lemma run_keeps_registrations_witness :
  registered (st_heap (snd (run R0 0 group VNull st_alpha_ran))) group methods "alpha" init_f
  /\ has_run (st_heap (snd (run R0 0 group VNull st_alpha_ran))) init_f.
Proof.
  destruct (run_keeps_registrations R0 group methods "alpha" init_f
              (R0_keeps_registered group methods "alpha" init_f ltac:(discriminate))
              (R0_keeps_has_run init_f) 0 group VNull st_alpha_ran) as [H1 H2].
  split.
  - apply H1. repeat split; vm_compute; reflexivity.
  - apply H2. vm_compute. reflexivity.
Defined.

(** [f] under "alpha" and "gamma": after [need("alpha")], the call
    [need("gamma")] invokes nothing. *)
Lemma need_shared_mark_witness :
  need R0 0 group (VStr "gamma") (VStr "conf")
    (snd (need R0 0 group (VStr "alpha") VNull st_shared))
  = (Ret (VBool true), snd (need R0 0 group (VStr "alpha") VNull st_shared)).
Proof.
  apply (need_shared_mark R0 group methods "alpha" "gamma" init_f
           (R0_keeps_registered group methods "alpha" init_f ltac:(discriminate))
           (R0_keeps_registered group methods "gamma" init_f ltac:(discriminate))
           0 st_shared VNull (VBool false)).
  - repeat split; vm_compute; reflexivity.
  - repeat split; vm_compute; reflexivity.
  - vm_compute. reflexivity.
Defined.

(** In the world where [f] throws: two calls of [need("alpha")] on
    [st_named] invoke [f] twice. *)
Lemma need_retries_after_throw_witness :
  need R1 0 group (VStr "alpha") (VNum 1) st_named =
    (Throw (Thrown (VStr "boom")),
     {| st_heap := st_heap st_named;
        st_trace := st_trace st_named ++ [ECall init_f (VObj group) [VNum 1]] |})
  /\ st_trace (snd (need R1 0 group (VStr "alpha") (VNum 2)
                      {| st_heap := st_heap st_named;
                         st_trace := st_trace st_named
                                     ++ [ECall init_f (VObj group) [VNum 1]] |}))
     = st_trace st_named ++ [ECall init_f (VObj group) [VNum 1];
                             ECall init_f (VObj group) [VNum 2]].
Proof.
  apply (need_retries_after_throw R1 0 group methods "alpha" init_f 6 (VNum 1) (VNum 2)
           st_named (Thrown (VStr "boom")) (st_heap st_named)).
  all: vm_compute; reflexivity.
Defined.

(** A second [run] on the group of [st_named]. *)
Lemma run_all_ran_witness :
  run R0 0 group (VStr "again") st_all_ran = (Ret VUndef, st_all_ran).
Proof.
  apply (run_all_ran R0 0 group methods (VStr "again") st_all_ran).
  - vm_compute. reflexivity.
  - assert (enum_keys R0 (st_heap st_all_ran) (VObj methods) = ["alpha"; "beta"]) as ->
      by (vm_compute; reflexivity).
    repeat constructor.
    + exists init_f. repeat split; vm_compute; reflexivity.
    + exists init_g. repeat split; vm_compute; reflexivity.
Defined.

(** In the world where [f] throws, [run] on [st_named] ends at
    "alpha" and does not reach "beta". *)
Lemma run_stops_at_throw_witness :
  run R1 0 group VNull st_named =
    (Throw (Thrown (VStr "boom")),
     {| st_heap := st_heap st_named;
        st_trace := st_trace st_named ++ [ECall init_f (VObj group) [VNull]] |}).
Proof.
  apply (run_stops_at_throw R1 0 group methods VNull st_named [] "alpha" ["beta"]
           init_f 6 (Thrown (VStr "boom")) (st_heap st_named)).
  all: try (vm_compute; reflexivity).
  constructor.
Defined.

(** [new InitGroup("g")] on the object [group] of [st0], then
    [add("alpha", f)] and [need("alpha", null)]. *)
Lemma new_group_add_need_witness :
  exists st1 st2,
    constructor R0 group (VStr "g") VUndef st0 = (Ret tt, st1)
    /\ add R0 group (VStr "alpha") (VObj init_f) VUndef st1 = (Ret (VBool true), st2)
    /\ need R0 0 group (VStr "alpha") VNull st2 =
         (Ret (VBool false),
          {| st_heap := set_own (set_own (st_heap st2) model "ready" (VBool true))
                          init_f "_run_init" (VBool true);
             st_trace := st_trace st0 ++ [ECall init_f (VObj group) [VNull]] |}).
Proof.
  destruct (new_group_add_need R0 group (VStr "g") VUndef "alpha" init_f 6 VUndef st0
              (obj None KObject [("toString", method (VObj toString_fn))]))
    as (st1 & st2 & Hnew & Hadd & Hneed); try (vm_compute; reflexivity).
  - vm_compute. eexists. reflexivity.
  - discriminate.
  - exists st1, st2. split; [exact Hnew|]. split; [exact Hadd|].
    apply Hneed. reflexivity.
Defined.

(** [new InitGroup("g")], then [add("toString", f)]. *)
Lemma new_group_rejects_inherited_witness :
  exists st1,
    constructor R0 group (VStr "g") VUndef st0 = (Ret tt, st1)
    /\ add R0 group (VStr "toString") (VObj init_f) VUndef st1 =
         (Ret (VBool false),
          {| st_heap := st_heap st1;
             st_trace := st_trace st0 ++
               [EConsoleError [VStr "cannot overwrite init method";
                               VStr "toString"; VObj init_f; VObj group]] |}).
Proof.
  apply (new_group_rejects_inherited R0 group (VStr "g") VUndef "toString"
           (VObj toString_fn) (VObj init_f) VUndef st0
           (obj None KObject [("toString", method (VObj toString_fn))])).
  all: try (vm_compute; reflexivity).
  - vm_compute. eexists. reflexivity.
  - discriminate.
  - discriminate.
Defined.

(** [new InitGroup("g", model)], then [run]. *)
Lemma new_group_run_witness :
  exists st1,
    constructor R0 group (VStr "g") (VObj model) st0 = (Ret tt, st1)
    /\ st_trace st1 = st_trace st0
    /\ run R0 0 group VNull st1 = (Ret VUndef, st1).
Proof.
  apply (new_group_run R0 group (VStr "g") (VObj model) VNull 0 st0
           (obj None KObject [("toString", method (VObj toString_fn))])).
  all: try (vm_compute; reflexivity).
  - vm_compute. eexists. reflexivity.
  - discriminate.
  - repeat constructor.
Defined.

(** [new InitGroup("g")], [add("alpha", f)], [add("beta", g)] and
    [run("conf")] on [st0]. *)
Lemma run_follows_registration_witness :
  exists st1 st2 st3,
    constructor R0 group (VStr "g") VUndef st0 = (Ret tt, st1)
    /\ adds R0 group inits_named st1 = (Ret tt, st2)
    /\ run R0 0 group (VStr "conf") st2 = (Ret VUndef, st3)
    /\ st_trace st3 = st_trace st0 ++
         [ECall init_f (VObj group) [VStr "conf"];
          ECall init_g (VObj group) [VStr "conf"]].
Proof.
  apply (run_follows_registration R0 group (VStr "g") VUndef inits_named 0 (VStr "conf")
           st0 (obj None KObject [("toString", method (VObj toString_fn))])).
  - vm_compute. eexists. reflexivity.
  - discriminate.
  - reflexivity.
  - reflexivity.
  - reflexivity.
  - repeat constructor.
  - apply NoDup_cons. split; [|apply NoDup_singleton].
    intros H. apply list_elem_of_In in H. simpl in H. destruct H as [H|[]]. discriminate H.
  - repeat constructor.
  - apply NoDup_cons. split; [|apply NoDup_singleton].
    intros H. apply list_elem_of_In in H. simpl in H. destruct H as [H|[]]. discriminate H.
  - repeat constructor.
  - vm_compute. intuition discriminate.
  - apply R0_untouched. vm_compute. intuition discriminate.
  - exact R0_returns.
Defined.

End InitGroupMore.

(** ** Extension: further properties *)
Module ExtensionMore.
Import JS JSFacts LoopFacts Extension ExtensionSpec.
Local Open Scope list_scope.
Local Open Scope js_scope.

#[local] Arguments get : simpl never.
#[local] Arguments set_own : simpl never.
#[local] Arguments callable : simpl never.
#[local] Arguments typeof : simpl never.
#[local] Arguments call : simpl never.
#[local] Arguments enum_keys : simpl never.
#[local] Arguments has_property : simpl never.
#[local] Arguments instanceof : simpl never.
#[local] Arguments to_string : simpl never.
#[local] Arguments String.eqb : simpl never.

Section WithRealm.
Variable R : realm.

(** X15. A successful [addHandledMethod] calls nothing, and of what
    existed before the call it writes to one place only, the property
    of the parent under the destination key. Every other object that
    existed, among them the parent's prototype with the property that
    a replacement shadows, and every other property of the parent is
    as before. *)
Theorem addHandledMethod_frame ext p srcName destName modelIsThis canReplace st r st1 :
  get (st_heap st) ext "parent" = VObj p ->
  is_Some (st_heap st !! p) ->
  addHandledMethod R ext srcName destName modelIsThis canReplace st = (Ret r, st1) ->
  let destKey :=
    to_string R (st_heap st) (if truthy destName then destName else srcName) in
  r = VUndef
  /\ st_trace st1 = st_trace st
  /\ (forall l, l <> p -> is_Some (st_heap st !! l) ->
        st_heap st1 !! l = st_heap st !! l)
  /\ (forall k, k <> destKey -> own (st_heap st1) p k = own (st_heap st) p k).
Proof.
  intros Hp Hal Hadd destKey. subst destKey.
  rewrite (addHandledMethod_eval _ _ _ _ _ _ _ _ Hp) in Hadd.
  destruct (callable _ _); [|done].
  destruct (_ || _); [|done]. simplify_eq. simpl.
  split; [done|]. split; [done|]. split.
  - intros l Hl Hsome. rewrite lookup_set_own_other by done.
    apply lookup_app_l. destruct Hsome. by eapply lookup_lt_Some.
  - intros k Hk. rewrite own_set_own_other by (by right).
    apply own_ext. apply lookup_app_l. destruct Hal. by eapply lookup_lt_Some.
Qed.

(** X16. On an extension without a parent ([parent] is [undefined] or
    [null]) the source is still checked first; with a callable source
    the access to the parent raises a TypeError, and no object that
    existed is changed. *)
Theorem addHandledMethod_without_parent ext srcName destName modelIsThis canReplace st :
  get (st_heap st) ext "parent" = VUndef \/ get (st_heap st) ext "parent" = VNull ->
  let h := st_heap st in
  let srcKey := to_string R h srcName in
  let res := addHandledMethod R ext srcName destName modelIsThis canReplace st in
  (callable h (get h ext srcKey) = false ->
     res = (Throw (Error (srcKey ++ " method not found in the Extension")%string), st))
  /\ (callable h (get h ext srcKey) = true ->
        fst res = Throw TypeError
        /\ st_trace (snd res) = st_trace st
        /\ forall l, is_Some (h !! l) -> st_heap (snd res) !! l = h !! l).
Proof.
  intros Hp h srcKey res. subst h srcKey res.
  unfold addHandledMethod, bind, read, get_member, set_member, alloc, modify, throw. simpl.
  rewrite typeof_F. split; intros Hc; rewrite Hc; simpl; [done|].
  assert (forall (h : heap) o l, is_Some (h !! l) -> (h ++ [o]) !! l = h !! l) as Happ.
  { intros h o l Hl. apply lookup_app_l. destruct Hl. by eapply lookup_lt_Some. }
  destruct (truthy canReplace), (truthy modelIsThis); simpl;
    destruct Hp as [Hp|Hp]; rewrite ?Hp; simpl; rewrite ?Hp; simpl; auto.
Qed.

(** X17. The closure looks its target up when it is called. Once the
    extension's method is gone, so that [ext[srcName]] is [undefined]
    or [null], a call of the closure raises a TypeError and changes
    nothing. *)
Theorem forwarder_source_gone ext p srcName destName modelIsThis canReplace st r st1 :
  get (st_heap st) ext "parent" = VObj p ->
  is_Some (st_heap st !! p) ->
  addHandledMethod R ext srcName destName modelIsThis canReplace st = (Ret r, st1) ->
  let destKey :=
    to_string R (st_heap st) (if truthy destName then destName else srcName) in
  exists c,
    get (st_heap st1) p destKey = VObj c
    /\ forall st2,
         code_of (st_heap st2) c = code_of (st_heap st1) c ->
         get (st_heap st2) ext (to_string R (st_heap st2) srcName) = VUndef
         \/ get (st_heap st2) ext (to_string R (st_heap st2) srcName) = VNull ->
         forall fuel this args,
           call R (Datatypes.S fuel) (VObj c) this args st2 = (Throw TypeError, st2).
Proof.
  intros Hp Hal Hadd destKey. subst destKey.
  rewrite (addHandledMethod_eval _ _ _ _ _ _ _ _ Hp) in Hadd.
  destruct (callable _ _); [|done].
  destruct (_ || _); [|done]. simplify_eq.
  exists (length (st_heap st)). simpl.
  edestruct (install_facts (st_heap st) p) as [Hget Hlook]; [done|].
  split; [exact Hget|].
  intros st2 Hc Hgone fuel this args. rewrite Hlook in Hc. simpl in Hc.
  rewrite (call_forwarder _ _ _ _ _ _ _ _ _ Hc).
  rewrite call_not_callable; [done|]. by destruct Hgone as [-> | ->].
Qed.

(** X18. [addHandledMethods] is not atomic. When the first name of an array
    has been installed and the second has no method in the extension,
    the error leaves in the state that the first installation has
    produced: nothing is taken back, and the later names are not looked
    at. *)
Theorem addHandledMethods_keeps_earlier ext p arr st k1 k2 rest n1 n2 r st1 :
  isArray (st_heap st) (VObj arr) = true ->
  enum_keys R (st_heap st) (VObj arr) = k1 :: k2 :: rest ->
  own (st_heap st) arr k1 = Some n1 ->
  addHandledMethod R ext n1 VUndef VUndef VUndef st = (Ret r, st1) ->
  own (st_heap st1) arr k2 = Some n2 ->
  get (st_heap st1) ext "parent" = VObj p ->
  callable (st_heap st1) (get (st_heap st1) ext (to_string R (st_heap st1) n2)) = false ->
  addHandledMethods R ext (VObj arr) st =
    (Throw (Error (to_string R (st_heap st1) n2
                   ++ " method not found in the Extension")%string), st1).
Proof.
  intros Harr Hkeys H1 Hadd H2 Hp Hno.
  assert (typeof (st_heap st) (VObj arr) = types.O) as Ht.
  { unfold typeof, callable. unfold isArray in Harr.
    by destruct (st_heap st !! arr) as [[? [] ?]|]. }
  rewrite (addHandledMethods_loops _ _ _ _ Ht), Harr.
  unfold bind at 1, for_in, bind at 1, read. rewrite Hkeys.
  rewrite for_each_cons, (for_in_turn _ _ _ _ (own_has _ _ _ _ H1)).
  unfold array_entry at 1, bind at 1, get_member, read.
  rewrite (own_get _ _ _ _ H1), Hadd.
  rewrite for_each_cons, (for_in_turn _ _ _ _ (own_has _ _ _ _ H2)).
  unfold array_entry at 1, bind at 1, get_member, read.
  rewrite (own_get _ _ _ _ H2).
  rewrite (addHandledMethod_eval _ _ _ _ _ _ _ _ Hp), Hno. done.
Qed.

Lemma mapping_entry_skip ext mp k st :
  get (st_heap st) mp k = VUndef
  \/ (exists n, get (st_heap st) mp k = VNum n)
  \/ callable (st_heap st) (get (st_heap st) mp k) = true ->
  mapping_entry R ext (VObj mp) k st = (Ret VUndef, st).
Proof.
  intros Hk. unfold mapping_entry, bind, get_member, read. simpl.
  destruct Hk as [-> | [[n ->] | Hk]]; try done.
  apply callable_code in Hk as Hk'. destruct Hk' as (f & c & Hv & _).
  rewrite Hv in *. unfold typeof. by rewrite Hk.
Qed.

Lemma skip_loop ext mp ks st :
  Forall (fun k => get (st_heap st) mp k = VUndef
                   \/ (exists n, get (st_heap st) mp k = VNum n)
                   \/ callable (st_heap st) (get (st_heap st) mp k) = true) ks ->
  for_each ks
    (fun k => present <- read (fun h => still_has h (VObj mp) k) ;;
              if present then mapping_entry R ext (VObj mp) k ;;; ret tt else ret tt) st
  = (Ret tt, st).
Proof.
  intros Hall. induction Hall as [|k ks Hk Hall IH]; [done|].
  rewrite for_each_cons. unfold bind at 1, read. simpl.
  destruct (has_property (st_heap st) mp k); [|exact IH].
  unfold bind at 1. rewrite (mapping_entry_skip _ _ _ _ Hk). exact IH.
Qed.

(** X19. In a keyed mapping, an entry whose value is [undefined], a number
    or a function is passed over: a mapping of such entries installs
    nothing and reports nothing. *)
Theorem addHandledMethods_skips ext mp st :
  callable (st_heap st) (VObj mp) = false ->
  isArray (st_heap st) (VObj mp) = false ->
  Forall (fun k => get (st_heap st) mp k = VUndef
                   \/ (exists n, get (st_heap st) mp k = VNum n)
                   \/ callable (st_heap st) (get (st_heap st) mp k) = true)
    (enum_keys R (st_heap st) (VObj mp)) ->
  addHandledMethods R ext (VObj mp) st = (Ret VUndef, st).
Proof.
  intros Hc Harr Hall.
  assert (typeof (st_heap st) (VObj mp) = types.O) as Ht.
  { unfold typeof. by rewrite Hc. }
  rewrite (addHandledMethods_loops _ _ _ _ Ht), Harr.
  unfold bind at 1. rewrite InitGroupSpec.for_in_eq. by rewrite (skip_loop ext mp _ st Hall).
Qed.

(** X20. An entry whose value is [null] is taken for an options object,
    [typeof null] being ["object"]: reading [destName] from it raises a
    TypeError. *)
Theorem addHandledMethods_null_entry ext mp st pre k post :
  callable (st_heap st) (VObj mp) = false ->
  isArray (st_heap st) (VObj mp) = false ->
  enum_keys R (st_heap st) (VObj mp) = pre ++ k :: post ->
  Forall (fun k => get (st_heap st) mp k = VUndef
                   \/ (exists n, get (st_heap st) mp k = VNum n)
                   \/ callable (st_heap st) (get (st_heap st) mp k) = true) pre ->
  own (st_heap st) mp k = Some VNull ->
  addHandledMethods R ext (VObj mp) st = (Throw TypeError, st).
Proof.
  intros Hc Harr Hkeys Hall Hnull.
  assert (typeof (st_heap st) (VObj mp) = types.O) as Ht.
  { unfold typeof. by rewrite Hc. }
  rewrite (addHandledMethods_loops _ _ _ _ Ht), Harr.
  unfold bind at 1. rewrite InitGroupSpec.for_in_eq, Hkeys, for_each_app.
  rewrite (skip_loop ext mp _ st Hall).
  rewrite for_each_cons, (for_in_turn _ _ _ _ (own_has _ _ _ _ Hnull)).
  unfold mapping_entry, bind, get_member, read. simpl.
  by rewrite (own_get _ _ _ _ Hnull).
Qed.

End WithRealm.
Import Example Scenes.

(** [ext.addHandledMethod("foo")] on [st_ext]: the extension, its
    class and [Model.prototype] are as before, and so is the model's
    own property [pending]. *)
Lemma addHandledMethod_frame_witness :
  st_trace st_foo = st_trace st_ext
  /\ st_heap st_foo !! ext = st_heap st_ext !! ext
  /\ st_heap st_foo !! ext_proto = st_heap st_ext !! ext_proto
  /\ st_heap st_foo !! Model_prototype R0 = st_heap st_ext !! Model_prototype R0
  /\ own (st_heap st_foo) model "pending" = own (st_heap st_ext) model "pending".
Proof.
  destruct (addHandledMethod_frame R0 ext model (VStr "foo") VUndef VUndef VUndef
              st_ext VUndef st_foo)
    as (_ & Htr & Hsame & Hprops); try (vm_compute; reflexivity).
  - vm_compute. eexists. reflexivity.
  - split; [exact Htr|].
    split; [|split; [|split]].
    + apply Hsame; [discriminate | vm_compute; eexists; reflexivity].
    + apply Hsame; [discriminate | vm_compute; eexists; reflexivity].
    + apply Hsame; [discriminate | vm_compute; eexists; reflexivity].
    + apply Hprops. discriminate.
Defined.

(** In [st0] the extension object has no [parent] yet. *)
Lemma addHandledMethod_without_parent_witness :
  addHandledMethod R0 ext (VStr "nope") VUndef VUndef VUndef st0 =
    (Throw (Error "nope method not found in the Extension"), st0)
  /\ fst (addHandledMethod R0 ext (VStr "foo") VUndef VUndef VUndef st0) = Throw TypeError
  /\ fst (addHandledMethod R0 ext (VStr "foo") VUndef (VBool true) (VBool true) st0)
     = Throw TypeError.
Proof.
  split; [|split].
  - apply (addHandledMethod_without_parent R0 ext (VStr "nope") VUndef VUndef VUndef st0).
    + left. vm_compute. reflexivity.
    + vm_compute. reflexivity.
  - apply (addHandledMethod_without_parent R0 ext (VStr "foo") VUndef VUndef VUndef st0).
    + left. vm_compute. reflexivity.
    + vm_compute. reflexivity.
  - apply (addHandledMethod_without_parent R0 ext (VStr "foo") VUndef (VBool true)
             (VBool true) st0).
    + left. vm_compute. reflexivity.
    + vm_compute. reflexivity.
Defined.

(** [model.foo(1)] after [ext.foo = undefined]. *)
Lemma forwarder_source_gone_witness :
  exists c,
    get (st_heap st_foo) model "foo" = VObj c
    /\ call R0 1 (VObj c) (VObj model) [VNum 1] st_gone = (Throw TypeError, st_gone).
Proof.
  destruct (forwarder_source_gone R0 ext model (VStr "foo") VUndef VUndef VUndef
              st_ext VUndef st_foo)
    as (c & Hget & Hcall); try (vm_compute; reflexivity).
  - vm_compute. eexists. reflexivity.
  - exists c. split; [exact Hget|].
    assert (c = 13) as -> by (vm_compute in Hget; congruence).
    apply Hcall; [vm_compute; reflexivity|]. left. vm_compute. reflexivity.
Defined.

(** [ext.addHandledMethods(["foo", "nope"])]: the error for "nope"
    leaves [model.foo] installed. *)
Lemma addHandledMethods_keeps_earlier_witness :
  exists st1,
    addHandledMethods R0 ext (VObj arg) st_partial =
      (Throw (Error "nope method not found in the Extension"), st1)
    /\ code_of (st_heap st1) 14 = Some (CForwarder ext (VStr "foo") (VObj ext))
    /\ get (st_heap st1) model "foo" = VObj 14.
Proof.
  eexists. split; [|split].
  - apply (addHandledMethods_keeps_earlier R0 ext model arg st_partial "0" "1" []
             (VStr "foo") (VStr "nope") VUndef).
    all: vm_compute; reflexivity.
  - vm_compute. reflexivity.
  - vm_compute. reflexivity.
Defined.

(** [ext.addHandledMethods({a: 1, b: undefined, c: foo_fn})] *)
Lemma addHandledMethods_skips_witness :
  addHandledMethods R0 ext (VObj arg) st_skipped = (Ret VUndef, st_skipped).
Proof.
  apply (addHandledMethods_skips R0 ext arg st_skipped).
  - vm_compute. reflexivity.
  - vm_compute. reflexivity.
  - assert (enum_keys R0 (st_heap st_skipped) (VObj arg) = ["a"; "b"; "c"]) as ->
      by (vm_compute; reflexivity).
    constructor; [|constructor; [|constructor; [|constructor]]].
    + right. left. exists 1%Z. vm_compute. reflexivity.
    + left. vm_compute. reflexivity.
    + right. right. vm_compute. reflexivity.
Defined.

(** [ext.addHandledMethods({a: 1, foo: null})] *)
Lemma addHandledMethods_null_entry_witness :
  addHandledMethods R0 ext (VObj arg) st_null = (Throw TypeError, st_null).
Proof.
  apply (addHandledMethods_null_entry R0 ext arg st_null ["a"] "foo" []).
  - vm_compute. reflexivity.
  - vm_compute. reflexivity.
  - vm_compute. reflexivity.
  - constructor; [|constructor]. right. left. exists 1%Z. vm_compute. reflexivity.
  - vm_compute. reflexivity.
Defined.

End ExtensionMore.
